(** * LBRYAddressGenerator: key-to-address derivation

    A shallow embedding of [index.js] (class [LBRYAddressGenerator]) and the
    properties of its address pipeline.

    Buffers are lists of bytes, JavaScript strings are [string], BigInt values
    are [Z].  A method that can throw returns a [Result]; the two methods that
    read [crypto.randomBytes] thread the entropy source explicitly.  The
    library calls of the source ([crypto.createHash], [secp256k1.*],
    [Buffer.from], [toString('hex')], [BigInt]) are modelled by the functions
    those libraries are documented to compute, each in a module of its own. *)

From Equations Require Import Equations.
From Stdlib Require Import ZArith Zcong List String Ascii Bool Lia.
From Stdlib Require Import Strings.Byte.
Import ListNotations.

Local Open Scope string_scope.
Local Open Scope list_scope.
Local Open Scope Z_scope.

(* ===================================================================== *)
(** * Part I: definitions                                                 *)
(* ===================================================================== *)

(** ** Buffers *)

Definition bytes := list byte.

Definition Z_of_byte (b : byte) : Z := Z.of_N (Byte.to_N b).

(** The byte stored when a number is written into a [Uint8Array] slot:
    the value modulo 256. *)
Definition byte_of_Z (z : Z) : byte :=
  match Byte.of_N (Z.to_N (z mod 256)) with
  | Some b => b
  | None => x00
  end.

(** Big-endian unsigned value of a buffer. *)
Definition be_value (data : bytes) : Z :=
  fold_left (fun acc b => acc * 256 + Z_of_byte b) data 0.

(** Little-endian unsigned value of a buffer. *)
Definition le_value (data : bytes) : Z :=
  fold_right (fun b acc => Z_of_byte b + 256 * acc) 0 data.

(** [n] bytes of [v], least significant first. *)
Fixpoint le_bytes (n : nat) (v : Z) : bytes :=
  match n with
  | O => []
  | S n' => byte_of_Z v :: le_bytes n' (v / 256)
  end.

(** [n] bytes of [v], most significant first. *)
Definition be_bytes (n : nat) (v : Z) : bytes := rev (le_bytes n v).

(** Cut a list into consecutive pieces of [n] elements. *)
Fixpoint chunks {A} (n : nat) (fuel : nat) (l : list A) : list (list A) :=
  match fuel with
  | O => []
  | S fuel' =>
      match l with
      | [] => []
      | _ => firstn n l :: chunks n fuel' (skipn n l)
      end
  end.

(** ** Exceptions *)

Inductive exn : Type :=
| Error (message : string)
| SyntaxError (message : string)
| RangeError (message : string).

Inductive Result (A : Type) : Type :=
| Ok (value : A)
| Throw (e : exn).

Arguments Ok {A} value.
Arguments Throw {A} e.

Definition bind {A B} (r : Result A) (k : A -> Result B) : Result B :=
  match r with
  | Ok v => k v
  | Throw e => Throw e
  end.

Notation "'let*' x ':=' r 'in' k" := (bind r (fun x => k))
  (at level 10, x name, r at level 100, k at level 200).

(** ** Hexadecimal text *)

Module Hex.

(** The character of a hex digit value, lower case as Node prints it. *)
Definition digit (n : Z) : ascii :=
  match String.get (Z.to_nat n) "0123456789abcdef" with
  | Some c => c
  | None => "0"%char
  end.

(** The value of a hex digit character, either case. *)
Definition unhex (c : ascii) : option Z :=
  let n := Z.of_nat (nat_of_ascii c) in
  if (48 <=? n) && (n <=? 57) then Some (n - 48)
  else if (97 <=? n) && (n <=? 102) then Some (n - 87)
  else if (65 <=? n) && (n <=? 70) then Some (n - 55)
  else None.

(** [buf.toString('hex')]: two lower-case digits per byte. *)
Fixpoint toString (data : bytes) : string :=
  match data with
  | [] => EmptyString
  | b :: rest =>
      String (digit (Z_of_byte b / 16))
        (String (digit (Z_of_byte b mod 16)) (toString rest))
  end.

(** [Buffer.from(s, 'hex')]: decodes pairs of hex digits and stops, without
    failing, at the first pair that is not two hex digits; a trailing single
    character is dropped. *)
Fixpoint from (s : string) : bytes :=
  match s with
  | String hi (String lo rest) =>
      match unhex hi, unhex lo with
      | Some h, Some l => byte_of_Z (16 * h + l) :: from rest
      | _, _ => []
      end
  | _ => []
  end.

(** Value of a string of hex digits read after the accumulator [acc];
    [None] when a character is not a hex digit. *)
Fixpoint digits_value (s : string) (acc : Z) : option Z :=
  match s with
  | EmptyString => Some acc
  | String c rest =>
      match unhex c with
      | Some d => digits_value rest (16 * acc + d)
      | None => None
      end
  end.

End Hex.

(** [BigInt(s)] on the literals this program builds: a hex literal is [0x]
    followed by at least one hex digit; [BigInt('0x')] is a SyntaxError. *)
Definition BigInt (s : string) : Result Z :=
  match s with
  | String "0" (String "x" EmptyString) =>
      Throw (SyntaxError ("Cannot convert " ++ s ++ " to a BigInt")%string)
  | String "0" (String "x" digits) =>
      match Hex.digits_value digits 0 with
      | Some v => Ok v
      | None => Throw (SyntaxError ("Cannot convert " ++ s ++ " to a BigInt")%string)
      end
  | _ => Throw (SyntaxError ("Cannot convert " ++ s ++ " to a BigInt")%string)
  end.

(** ** Text of a plain Uint8Array

    [toString] of a Uint8Array that is not a Buffer is the one of arrays: it
    ignores its argument and joins the decimal numbers with commas. *)

Definition decimal_digit (d : Z) : ascii := ascii_of_nat (48 + Z.to_nat d).

Definition decimal_of_byte (b : byte) : string :=
  let v := Z_of_byte b in
  if v <? 10 then
    String (decimal_digit v) ""
  else if v <? 100 then
    String (decimal_digit (v / 10)) (String (decimal_digit (v mod 10)) "")
  else
    String (decimal_digit (v / 100))
      (String (decimal_digit (v / 10 mod 10))
         (String (decimal_digit (v mod 10)) "")).

Fixpoint Uint8Array_toString (data : bytes) : string :=
  match data with
  | [] => ""
  | [b] => decimal_of_byte b
  | b :: rest => (decimal_of_byte b ++ "," ++ Uint8Array_toString rest)%string
  end.

(** ** 32-bit word arithmetic shared by the two digests *)

Module Word32.

Definition mask : Z := 0xFFFFFFFF.
Definition wrap (x : Z) : Z := Z.land x mask.
Definition add (x y : Z) : Z := wrap (x + y).
Definition not (x : Z) : Z := Z.lxor x mask.
Definition rotl (n x : Z) : Z :=
  Z.lor (wrap (Z.shiftl x n)) (Z.shiftr x (32 - n)).
Definition rotr (n x : Z) : Z :=
  Z.lor (Z.shiftr x n) (wrap (Z.shiftl x (32 - n))).

End Word32.

(** ** [crypto.createHash('sha256')]: SHA-256 (FIPS 180-4) *)

Module SHA256.
Import Word32.

Definition Ch (x y z : Z) : Z := Z.lxor (Z.land x y) (Z.land (not x) z).
Definition Maj (x y z : Z) : Z :=
  Z.lxor (Z.lxor (Z.land x y) (Z.land x z)) (Z.land y z).
Definition bsig0 (x : Z) : Z := Z.lxor (Z.lxor (rotr 2 x) (rotr 13 x)) (rotr 22 x).
Definition bsig1 (x : Z) : Z := Z.lxor (Z.lxor (rotr 6 x) (rotr 11 x)) (rotr 25 x).
Definition ssig0 (x : Z) : Z := Z.lxor (Z.lxor (rotr 7 x) (rotr 18 x)) (Z.shiftr x 3).
Definition ssig1 (x : Z) : Z := Z.lxor (Z.lxor (rotr 17 x) (rotr 19 x)) (Z.shiftr x 10).

Definition K : list Z :=
  [ 0x428A2F98; 0x71374491; 0xB5C0FBCF; 0xE9B5DBA5;
    0x3956C25B; 0x59F111F1; 0x923F82A4; 0xAB1C5ED5;
    0xD807AA98; 0x12835B01; 0x243185BE; 0x550C7DC3;
    0x72BE5D74; 0x80DEB1FE; 0x9BDC06A7; 0xC19BF174;
    0xE49B69C1; 0xEFBE4786; 0x0FC19DC6; 0x240CA1CC;
    0x2DE92C6F; 0x4A7484AA; 0x5CB0A9DC; 0x76F988DA;
    0x983E5152; 0xA831C66D; 0xB00327C8; 0xBF597FC7;
    0xC6E00BF3; 0xD5A79147; 0x06CA6351; 0x14292967;
    0x27B70A85; 0x2E1B2138; 0x4D2C6DFC; 0x53380D13;
    0x650A7354; 0x766A0ABB; 0x81C2C92E; 0x92722C85;
    0xA2BFE8A1; 0xA81A664B; 0xC24B8B70; 0xC76C51A3;
    0xD192E819; 0xD6990624; 0xF40E3585; 0x106AA070;
    0x19A4C116; 0x1E376C08; 0x2748774C; 0x34B0BCB5;
    0x391C0CB3; 0x4ED8AA4A; 0x5B9CCA4F; 0x682E6FF3;
    0x748F82EE; 0x78A5636F; 0x84C87814; 0x8CC70208;
    0x90BEFFFA; 0xA4506CEB; 0xBEF9A3F7; 0xC67178F2 ].

(** The eight chaining words. *)
Record state : Type := State
  { h0 : Z; h1 : Z; h2 : Z; h3 : Z; h4 : Z; h5 : Z; h6 : Z; h7 : Z }.

Definition initial : state :=
  State 0x6A09E667 0xBB67AE85 0x3C6EF372 0xA54FF53A
        0x510E527F 0x9B05688C 0x1F83D9AB 0x5BE0CD19.

(** Padding: a 1 bit, zeros, then the bit length in 8 bytes, big-endian,
    up to a multiple of 64 bytes. *)
Definition pad (msg : bytes) : bytes :=
  let len := Z.of_nat (List.length msg) in
  msg ++ x80 :: repeat x00 (Z.to_nat ((55 - len) mod 64)) ++ be_bytes 8 (8 * len).

Definition words (data : bytes) : list Z :=
  map be_value (chunks 4 (List.length data) data).

(** Message schedule: [win] holds the sixteen most recent words. *)
Definition next_word (win : list Z) : Z :=
  add (add (ssig1 (nth 14 win 0)) (nth 9 win 0))
      (add (ssig0 (nth 1 win 0)) (nth 0 win 0)).

Fixpoint extend (n : nat) (win : list Z) : list Z :=
  match n with
  | O => []
  | S n' => let w := next_word win in w :: extend n' (tl win ++ [w])
  end.

Definition schedule (block : list Z) : list Z := block ++ extend 48 block.

Definition round (s : state) (kw : Z * Z) : state :=
  let '(State a b c d e f g h) := s in
  let t1 := add (add (add h (bsig1 e)) (add (Ch e f g) (fst kw))) (snd kw) in
  let t2 := add (bsig0 a) (Maj a b c) in
  State (add t1 t2) a b c (add d t1) e f g.

Definition compress (s : state) (block : list Z) : state :=
  let '(State a b c d e f g h) := fold_left round (combine K (schedule block)) s in
  State (add (h0 s) a) (add (h1 s) b) (add (h2 s) c) (add (h3 s) d)
        (add (h4 s) e) (add (h5 s) f) (add (h6 s) g) (add (h7 s) h).

Definition digest (s : state) : bytes :=
  be_bytes 4 (h0 s) ++ be_bytes 4 (h1 s) ++ be_bytes 4 (h2 s) ++ be_bytes 4 (h3 s) ++
  be_bytes 4 (h4 s) ++ be_bytes 4 (h5 s) ++ be_bytes 4 (h6 s) ++ be_bytes 4 (h7 s).

Definition sha256 (msg : bytes) : bytes :=
  let ws := words (pad msg) in
  digest (fold_left compress (chunks 16 (List.length ws) ws) initial).

End SHA256.

(** ** [crypto.createHash('ripemd160')]: RIPEMD-160 *)

Module RIPEMD160.
Import Word32.

(** The five round functions, chosen by the group of sixteen steps. *)
Definition f (group : nat) (x y z : Z) : Z :=
  match group with
  | 0%nat => Z.lxor (Z.lxor x y) z
  | 1%nat => Z.lor (Z.land x y) (Z.land (not x) z)
  | 2%nat => Z.lxor (Z.lor x (not y)) z
  | 3%nat => Z.lor (Z.land x z) (Z.land y (not z))
  | _ => Z.lxor x (Z.lor y (not z))
  end.

Definition KL : list Z := [ 0x00000000; 0x5A827999; 0x6ED9EBA1; 0x8F1BBCDC; 0xA953FD4E ].
Definition KR : list Z := [ 0x50A28BE6; 0x5C4DD124; 0x6D703EF3; 0x7A6D76E9; 0x00000000 ].

(** Message word selected at each step, left and right line. *)
Definition RL : list nat :=
  [ 0; 1; 2; 3; 4; 5; 6; 7; 8; 9; 10; 11; 12; 13; 14; 15;
    7; 4; 13; 1; 10; 6; 15; 3; 12; 0; 9; 5; 2; 14; 11; 8;
    3; 10; 14; 4; 9; 15; 8; 1; 2; 7; 0; 6; 13; 11; 5; 12;
    1; 9; 11; 10; 0; 8; 12; 4; 13; 3; 7; 15; 14; 5; 6; 2;
    4; 0; 5; 9; 7; 12; 2; 10; 14; 1; 3; 8; 11; 6; 15; 13 ]%nat.

Definition RR : list nat :=
  [ 5; 14; 7; 0; 9; 2; 11; 4; 13; 6; 15; 8; 1; 10; 3; 12;
    6; 11; 3; 7; 0; 13; 5; 10; 14; 15; 8; 12; 4; 9; 1; 2;
    15; 5; 1; 3; 7; 14; 6; 9; 11; 8; 12; 2; 10; 0; 4; 13;
    8; 6; 4; 1; 3; 11; 15; 0; 5; 12; 2; 13; 9; 7; 10; 14;
    12; 15; 10; 4; 1; 5; 8; 7; 6; 2; 13; 14; 0; 3; 9; 11 ]%nat.

(** Rotation amount at each step, left and right line. *)
Definition SL : list Z :=
  [ 11; 14; 15; 12; 5; 8; 7; 9; 11; 13; 14; 15; 6; 7; 9; 8;
    7; 6; 8; 13; 11; 9; 7; 15; 7; 12; 15; 9; 11; 7; 13; 12;
    11; 13; 6; 7; 14; 9; 13; 15; 14; 8; 13; 6; 5; 12; 7; 5;
    11; 12; 14; 15; 14; 15; 9; 8; 9; 14; 5; 6; 8; 6; 5; 12;
    9; 15; 5; 11; 6; 8; 13; 12; 5; 12; 13; 14; 11; 8; 5; 6 ].

Definition SR : list Z :=
  [ 8; 9; 9; 11; 13; 15; 15; 5; 7; 7; 8; 11; 14; 14; 12; 6;
    9; 13; 15; 7; 12; 8; 9; 11; 7; 7; 12; 7; 6; 15; 13; 11;
    9; 7; 15; 11; 8; 6; 6; 14; 12; 13; 5; 14; 13; 13; 7; 5;
    15; 5; 8; 11; 14; 14; 6; 14; 6; 9; 12; 9; 12; 5; 15; 8;
    8; 5; 12; 9; 12; 5; 14; 6; 8; 13; 6; 5; 15; 13; 11; 11 ].

Record state : Type := State { h0 : Z; h1 : Z; h2 : Z; h3 : Z; h4 : Z }.

Definition initial : state :=
  State 0x67452301 0xEFCDAB89 0x98BADCFE 0x10325476 0xC3D2E1F0.

(** One step of a line: [group] picks the round function, [k] the added
    constant, [r] the message word and [s] the rotation. *)
Definition step (X : list Z) (group : nat) (k : Z) (r : nat) (s : Z)
    (st : state) : state :=
  let '(State a b c d e) := st in
  let t := add (rotl s (add (add a (f group b c d)) (add (nth r X 0) k))) e in
  State e t b (rotl 10 c) d.

Definition left_line (X : list Z) (st : state) : state :=
  fold_left
    (fun st j =>
       step X (j / 16) (nth (j / 16) KL 0) (nth j RL 0%nat) (nth j SL 0) st)
    (seq 0 80) st.

Definition right_line (X : list Z) (st : state) : state :=
  fold_left
    (fun st j =>
       step X (4 - j / 16) (nth (j / 16) KR 0) (nth j RR 0%nat) (nth j SR 0) st)
    (seq 0 80) st.

Definition compress (st : state) (X : list Z) : state :=
  let '(State al bl cl dl el) := left_line X st in
  let '(State ar br cr dr er) := right_line X st in
  State (add (add (h1 st) cl) dr) (add (add (h2 st) dl) er)
        (add (add (h3 st) el) ar) (add (add (h4 st) al) br)
        (add (add (h0 st) bl) cr).

(** Padding as in SHA-256, with the bit length little-endian. *)
Definition pad (msg : bytes) : bytes :=
  let len := Z.of_nat (List.length msg) in
  msg ++ x80 :: repeat x00 (Z.to_nat ((55 - len) mod 64)) ++ le_bytes 8 (8 * len).

Definition words (data : bytes) : list Z :=
  map le_value (chunks 4 (List.length data) data).

Definition digest (st : state) : bytes :=
  le_bytes 4 (h0 st) ++ le_bytes 4 (h1 st) ++ le_bytes 4 (h2 st) ++
  le_bytes 4 (h3 st) ++ le_bytes 4 (h4 st).

Definition ripemd160 (msg : bytes) : bytes :=
  let ws := words (pad msg) in
  digest (fold_left compress (chunks 16 (List.length ws) ws) initial).

End RIPEMD160.

(** ** The [secp256k1] package: key check and public key derivation

    The package is not part of the repository; it is modelled by the curve
    arithmetic it computes, with the interface of the versions that the
    README's [npm install secp256k1] installs (4 and later): every entry
    point first asserts that the key is a Uint8Array of 32 bytes and throws
    otherwise, and [publicKeyCreate] returns a plain Uint8Array. *)

Module Secp256k1.

(** Field prime, group order and generator of the curve y^2 = x^3 + 7. *)
Definition p : Z := 2 ^ 256 - 2 ^ 32 - 977.
Definition n : Z :=
  0xFFFFFFFFFFFFFFFFFFFFFFFFFFFFFFFEBAAEDCE6AF48A03BBFD25E8CD0364141.
Definition Gx : Z :=
  0x79BE667EF9DCBBAC55A06295CE870B07029BFCDB2DCE28D959F2815B16F81798.
Definition Gy : Z :=
  0x483ADA7726A3C4655DA4FBFC0E1108A8FD17B448A68554199C47D08FFB10D4B8.

Inductive point : Type :=
| Infinity
| Affine (x y : Z).

Definition G : point := Affine Gx Gy.

(** Inverse in the field. *)
Definition inv (a : Z) : Z := Z.invmod a p.

Definition double (P : point) : point :=
  match P with
  | Infinity => Infinity
  | Affine x y =>
      if y =? 0 then Infinity
      else
        let m := (3 * x * x) * inv (2 * y) mod p in
        let x' := (m * m - 2 * x) mod p in
        Affine x' ((m * (x - x') - y) mod p)
  end.

Definition add (P Q : point) : point :=
  match P, Q with
  | Infinity, _ => Q
  | _, Infinity => P
  | Affine x1 y1, Affine x2 y2 =>
      if x1 =? x2 then
        if y1 =? y2 then double P else Infinity
      else
        let m := (y2 - y1) * inv (x2 - x1) mod p in
        let x' := (m * m - x1 - x2) mod p in
        Affine x' ((m * (x1 - x') - y1) mod p)
  end.

(** Scalar multiple [k * P], double-and-add from the top bit of [k]. *)
Fixpoint mul (k : positive) (P : point) : point :=
  match k with
  | xH => P
  | xO k' => double (mul k' P)
  | xI k' => add (double (mul k' P)) P
  end.

(** Compressed encoding: parity byte, then x in 32 bytes, big-endian.  The
    package writes into an output of 33 bytes in every case; the point at
    infinity is not a multiple [k * G] for [0 < k < n] (the generator has
    order [n], which is not proved here), its row only keeps the function
    total. *)
Definition serialize (P : point) : bytes :=
  match P with
  | Infinity => repeat x00 33
  | Affine x y => (if Z.even y then x02 else x03) :: be_bytes 32 x
  end.

(** The answer of [secp256k1.privateKeyVerify]: 32 bytes, nonzero and below
    the group order. *)
Definition privateKeyVerify (privateKey : bytes) : bool :=
  (List.length privateKey =? 32)%nat &&
  ((0 <? be_value privateKey) && (be_value privateKey <? n)).

(** The call [secp256k1.privateKeyVerify(privateKey)]: the assertion on the
    argument, then the answer. *)
Definition privateKeyVerify_call (privateKey : bytes) : Result bool :=
  if negb (List.length privateKey =? 32)%nat then
    Throw (Error "Expected private key to be an Uint8Array with length 32")
  else
    Ok (privateKeyVerify privateKey).

(** The call [secp256k1.publicKeyCreate(privateKey)], compressed by
    default. *)
Definition publicKeyCreate (privateKey : bytes) : Result bytes :=
  if negb (List.length privateKey =? 32)%nat then
    Throw (Error "Expected private key to be an Uint8Array with length 32")
  else if negb ((0 <? be_value privateKey) && (be_value privateKey <? n)) then
    Throw (Error "Private Key is invalid")
  else
    Ok (serialize (mul (Z.to_pos (be_value privateKey)) G)).

End Secp256k1.

(** ** [crypto.randomBytes]: the entropy source *)

(** The platform's random source, as the unbounded sequence of bytes it will
    deliver and the number of bytes already consumed. *)
Record World : Type := mkWorld
  { entropy : nat -> byte;
    consumed : nat }.

Definition randomBytes (size : nat) (w : World) : bytes * World :=
  (map (entropy w) (seq (consumed w) size),
   mkWorld (entropy w) (consumed w + size)).

(** The [j]-th block of 32 bytes that the source has still to deliver. *)
Definition draw (w : World) (j : nat) : bytes :=
  fst (randomBytes 32 (mkWorld (entropy w) (consumed w + 32 * j))).

(** ** class LBRYAddressGenerator *)

(** Constructor: the network parameters. *)
Definition MAINNET_PREFIX : Z := 0x55.
Definition TESTNET_PREFIX : Z := 0x6f.

(** [generatePrivateKey()]: the do-while loop draws 32 bytes until the draw
    passes [privateKeyVerify]; a draw has 32 bytes, so the assertion of the
    call holds and the call is its answer.  [fuel] bounds the number of
    draws; [None] means the bound was reached with every draw rejected. *)
Fixpoint generatePrivateKey (fuel : nat) (w : World) : option (bytes * World) :=
  match fuel with
  | O => None
  | S fuel' =>
      let (privateKey, w') := randomBytes 32 w in
      if Secp256k1.privateKeyVerify privateKey
      then Some (privateKey, w')
      else generatePrivateKey fuel' w'
  end.

(** [getPublicKey(privateKey)]. *)
Definition getPublicKey (privateKey : bytes) : Result bytes :=
  let* valid := Secp256k1.privateKeyVerify_call privateKey in
  if negb valid then
    Throw (Error "Invalid private key")
  else
    Secp256k1.publicKeyCreate privateKey.

(** [hash160(data)]. *)
Definition hash160 (data : bytes) : bytes :=
  let sha256Hash := SHA256.sha256 data in
  RIPEMD160.ripemd160 sha256Hash.

(** [doubleSha256(data)]. *)
Definition doubleSha256 (data : bytes) : bytes :=
  let firstHash := SHA256.sha256 data in
  SHA256.sha256 firstHash.

Definition alphabet : string :=
  "123456789ABCDEFGHJKLMNPQRSTUVWXYZabcdefghijkmnopqrstuvwxyz".

(** [alphabet[i] + result]; an index outside the string reads [undefined],
    which string concatenation spells out. *)
Definition prepend_symbol (i : Z) (result : string) : string :=
  match String.get (Z.to_nat i) alphabet with
  | Some c => String c result
  | None => ("undefined" ++ result)%string
  end.

(** Number of binary digits of [num]; each division by 58 shortens it. *)
Definition bit_length (num : Z) : nat := Z.to_nat (Z.log2_up (num + 1)).

(** The [while (num > 0)] loop of [base58Encode]. *)
Equations base58_digits (num : Z) (result : string) : string
  by wf (bit_length num) lt :=
  base58_digits num result with Z_gt_dec num 0 => {
    | left _ =>
        let remainder := num mod 58 in
        base58_digits (num / 58) (prepend_symbol remainder result);
    | right _ => result }.
Next Obligation.
  unfold bit_length.
  assert (H0 : 0 <= num / 58) by (apply Z.div_pos; lia).
  assert (H1 : 2 * (num / 58 + 1) <= num + 1).
  { assert (58 * (num / 58) <= num) by (apply Z.mul_div_le; lia). lia. }
  assert (H2 : Z.log2_up (2 * (num / 58 + 1)) = Z.succ (Z.log2_up (num / 58 + 1)))
    by (apply Z.log2_up_double; lia).
  assert (H3 : Z.log2_up (2 * (num / 58 + 1)) <= Z.log2_up (num + 1))
    by (apply Z.log2_up_le_mono; exact H1).
  assert (0 <= Z.log2_up (num / 58 + 1)) by apply Z.log2_up_nonneg.
  lia.
Qed.

(** The [for] loop of [base58Encode]: one ['1'] in front of [result] for
    each zero byte at the start of [data]. *)
Fixpoint base58_leading_zeros (data : bytes) (result : string) : string :=
  match data with
  | x00 :: rest => base58_leading_zeros rest (String "1" result)
  | _ => result
  end.

(** [base58Encode(data)]. *)
Definition base58Encode (data : bytes) : Result string :=
  let result := EmptyString in
  let* num := BigInt ("0x" ++ Hex.toString data)%string in
  let result := base58_digits num result in
  Ok (base58_leading_zeros data result).

(** [createAddress(publicKey, testnet)]. *)
Definition createAddress (publicKey : bytes) (testnet : bool) : Result string :=
  let publicKeyHash := hash160 publicKey in
  let prefix := if testnet then TESTNET_PREFIX else MAINNET_PREFIX in
  let prefixedHash := [byte_of_Z prefix] ++ publicKeyHash in
  let checksum := firstn 4 (doubleSha256 prefixedHash) in
  let fullAddress := prefixedHash ++ checksum in
  base58Encode fullAddress.

(** The wallet object literal.  [privateKey] is a Buffer, so
    [privateKey.toString('hex')] is its hex text; [publicKey] is the
    Uint8Array of [publicKeyCreate], so [publicKey.toString('hex')] is its
    array text. *)
Record Wallet : Type := mkWallet
  { privateKey : string;
    publicKey : string;
    address : string;
    network : string }.

Definition network_name (testnet : bool) : string :=
  if testnet then "testnet" else "mainnet".

(** [generateWallet(testnet)]. *)
Definition generateWallet (fuel : nat) (testnet : bool) (w : World)
    : option (Result Wallet * World) :=
  match generatePrivateKey fuel w with
  | None => None
  | Some (privateKey, w') =>
      Some (let* publicKey := getPublicKey privateKey in
            let* address := createAddress publicKey testnet in
            Ok (mkWallet (Hex.toString privateKey)
                         (Uint8Array_toString publicKey)
                         address (network_name testnet)),
            w')
  end.

(** The argument of [fromPrivateKey]: a string or a Buffer. *)
Inductive KeyArgument : Type :=
| KeyString (s : string)
| KeyBuffer (b : bytes).

(** [fromPrivateKey(privateKeyHex, testnet)]. *)
Definition fromPrivateKey (privateKeyHex : KeyArgument) (testnet : bool)
    : Result Wallet :=
  let privateKey :=
    match privateKeyHex with
    | KeyString s => Hex.from s
    | KeyBuffer b => b
    end in
  if negb (List.length privateKey =? 32)%nat then
    Throw (Error "Private key must be 32 bytes")
  else
    let* publicKey := getPublicKey privateKey in
    let* address := createAddress publicKey testnet in
    Ok (mkWallet (Hex.toString privateKey) (Uint8Array_toString publicKey)
                 address (network_name testnet)).

(** The test [/^[bm1]/] of [validateAddress]. *)
Definition starts_with_bm1 (address : string) : bool :=
  match address with
  | String c _ =>
      Ascii.eqb c "b" || Ascii.eqb c "m" || Ascii.eqb c "1"
  | EmptyString => false
  end.

(** [validateAddress(address)] on a string; nothing in the [try] block
    throws for a string, so the [catch] branch is not taken. *)
Definition validateAddress (address : string) : bool :=
  if (String.length address <? 26)%nat || (35 <? String.length address)%nat then
    false
  else if negb (starts_with_bm1 address) then
    false
  else
    true.

(** ** String operations used by the tests of the repository *)

(** [s.startsWith(prefix)], as [test.js] checks the first letter of an
    address. *)
Definition startsWith (s prefix : string) : bool := String.prefix prefix s.

(** [c.repeat(n)] for a one-character string. *)
Fixpoint repeat_char (c : ascii) (n : nat) : string :=
  match n with
  | O => EmptyString
  | S n' => String c (repeat_char c n')
  end.

(** ** Reading base-58 text and zero prefixes

    The source has no decoder; these functions read back what the encoder
    writes, so that its properties can be stated. *)

(** Position of [c] in [s], counted from zero; the length of [s] when [c]
    does not occur. *)
Fixpoint index_in (c : ascii) (s : string) : Z :=
  match s with
  | EmptyString => 0
  | String c' rest => if Ascii.eqb c c' then 0 else 1 + index_in c rest
  end.

Definition symbol_value (c : ascii) : Z := index_in c alphabet.

(** The number a text denotes in base 58, most significant symbol first,
    read after the accumulator [acc]. *)
Fixpoint base58_value_from (acc : Z) (s : string) : Z :=
  match s with
  | EmptyString => acc
  | String c rest => base58_value_from (acc * 58 + symbol_value c) rest
  end.

Definition base58_value (s : string) : Z := base58_value_from 0 s.

(** Every character of [s] is one of the 58 symbols. *)
Fixpoint all_in_alphabet (s : string) : bool :=
  match s with
  | EmptyString => true
  | String c rest => (symbol_value c <? 58) && all_in_alphabet rest
  end.

(** The zero bytes at the start of a buffer, and what follows them. *)
Fixpoint leading_zero_count (data : bytes) : nat :=
  match data with
  | x00 :: rest => S (leading_zero_count rest)
  | _ => O
  end.

Fixpoint strip_leading_zeros (data : bytes) : bytes :=
  match data with
  | x00 :: rest => strip_leading_zeros rest
  | _ => data
  end.

(** [s.toUpperCase()] on the characters of hex text. *)
Definition ascii_toUpperCase (c : ascii) : ascii :=
  let n := nat_of_ascii c in
  if ((97 <=? n) && (n <=? 122))%nat then ascii_of_nat (n - 32) else c.

Fixpoint toUpperCase (s : string) : string :=
  match s with
  | EmptyString => EmptyString
  | String c rest => String (ascii_toUpperCase c) (toUpperCase rest)
  end.

(* ===================================================================== *)
(** * Part II: properties                                                 *)
(* ===================================================================== *)

(** ** Bytes and their values *)

Lemma Z_of_byte_range (b : byte) : 0 <= Z_of_byte b < 256.
Proof.
  unfold Z_of_byte. pose proof (Byte.to_N_bounded b). lia.
Qed.

Lemma byte_of_Z_of_byte (b : byte) : byte_of_Z (Z_of_byte b) = b.
Proof. destruct b; reflexivity. Qed.

Lemma Z_of_byte_zero (b : byte) : Z_of_byte b = 0 -> b = x00.
Proof.
  intros H. rewrite <- (byte_of_Z_of_byte b), H. reflexivity.
Qed.

Lemma le_bytes_length (n : nat) (v : Z) : List.length (le_bytes n v) = n.
Proof.
  revert v. induction n as [|n IH]; intros v; simpl; [reflexivity|].
  now rewrite IH.
Qed.

Lemma be_bytes_length (n : nat) (v : Z) : List.length (be_bytes n v) = n.
Proof. unfold be_bytes. rewrite length_rev. apply le_bytes_length. Qed.

(** Reading a buffer after an accumulator shifts the accumulator by the
    length of the buffer. *)
Lemma be_fold_shift (data : bytes) (acc : Z) :
  fold_left (fun acc b => acc * 256 + Z_of_byte b) data acc =
  acc * 256 ^ Z.of_nat (List.length data) + be_value data.
Proof.
  unfold be_value. revert acc.
  induction data as [|b rest IH]; intros acc.
  - simpl. lia.
  - cbn [fold_left List.length]. rewrite IH, (IH (0 * 256 + Z_of_byte b)).
    rewrite Nat2Z.inj_succ, Z.pow_succ_r by lia. ring.
Qed.

Lemma be_value_cons (b : byte) (rest : bytes) :
  be_value (b :: rest) =
  Z_of_byte b * 256 ^ Z.of_nat (List.length rest) + be_value rest.
Proof.
  unfold be_value at 1. cbn [fold_left]. rewrite be_fold_shift. ring.
Qed.

Lemma be_value_range (data : bytes) :
  0 <= be_value data < 256 ^ Z.of_nat (List.length data).
Proof.
  induction data as [|b rest IH].
  - cbn. lia.
  - rewrite be_value_cons. cbn [List.length].
    rewrite Nat2Z.inj_succ, Z.pow_succ_r by lia.
    pose proof (Z_of_byte_range b).
    assert (0 < 256 ^ Z.of_nat (List.length rest)) by (apply Z.pow_pos_nonneg; lia).
    nia.
Qed.

Lemma be_value_zeros (n : nat) : be_value (repeat x00 n) = 0.
Proof.
  induction n as [|n IH]; [reflexivity|].
  cbn [repeat]. rewrite be_value_cons, IH. reflexivity.
Qed.

(** ** Hexadecimal text *)

Lemma unhex_digit (n : Z) : 0 <= n < 16 -> Hex.unhex (Hex.digit n) = Some n.
Proof.
  intros H. rewrite <- (Z2Nat.id n) by lia.
  assert (Hm : (Z.to_nat n < 16)%nat) by lia.
  remember (Z.to_nat n) as m eqn:E. clear E H.
  do 16 (destruct m as [|m]; [reflexivity|]).
  lia.
Qed.

Lemma byte_nibbles (b : byte) :
  0 <= Z_of_byte b / 16 < 16 /\ 0 <= Z_of_byte b mod 16 < 16 /\
  16 * (Z_of_byte b / 16) + Z_of_byte b mod 16 = Z_of_byte b.
Proof.
  pose proof (Z_of_byte_range b) as Hb.
  pose proof (Z.div_mod (Z_of_byte b) 16 ltac:(lia)) as Hd.
  pose proof (Z.mod_pos_bound (Z_of_byte b) 16 ltac:(lia)) as Hm.
  repeat split; try lia.
Qed.

(** Decoding the hex text of a buffer gives the buffer back. *)
Lemma Hex_from_toString (data : bytes) : Hex.from (Hex.toString data) = data.
Proof.
  induction data as [|b rest IH]; [reflexivity|].
  destruct (byte_nibbles b) as (Hhi & Hlo & Hsum).
  cbn [Hex.toString Hex.from].
  rewrite (unhex_digit _ Hhi), (unhex_digit _ Hlo), Hsum, byte_of_Z_of_byte, IH.
  reflexivity.
Qed.

Lemma Hex_toString_inj (a b : bytes) : Hex.toString a = Hex.toString b -> a = b.
Proof.
  intros H. rewrite <- (Hex_from_toString a), <- (Hex_from_toString b), H.
  reflexivity.
Qed.

Lemma Hex_digits_value_toString (data : bytes) (acc : Z) :
  Hex.digits_value (Hex.toString data) acc =
  Some (acc * 256 ^ Z.of_nat (List.length data) + be_value data).
Proof.
  rewrite <- be_fold_shift. revert acc.
  induction data as [|b rest IH]; intros acc; [reflexivity|].
  destruct (byte_nibbles b) as (Hhi & Hlo & Hsum).
  cbn [Hex.toString Hex.digits_value fold_left].
  rewrite (unhex_digit _ Hhi), (unhex_digit _ Hlo), IH.
  do 2 f_equal. lia.
Qed.

(** [BigInt('0x' + data.toString('hex'))] is the big-endian value of a
    buffer that has at least one byte, and a SyntaxError for the empty one. *)
Lemma BigInt_hex_nonempty (b : byte) (rest : bytes) :
  BigInt ("0x" ++ Hex.toString (b :: rest)) = Ok (be_value (b :: rest)).
Proof.
  pose proof (Hex_digits_value_toString (b :: rest) 0) as H.
  cbn [Hex.toString] in *. cbn [String.append BigInt].
  unfold BigInt. cbn [String.append].
  rewrite H. f_equal; lia.
Qed.

Lemma BigInt_hex_empty :
  BigInt ("0x" ++ Hex.toString []) = Throw (SyntaxError "Cannot convert 0x to a BigInt").
Proof. reflexivity. Qed.

(** ** Digest lengths *)

Lemma sha256_length (msg : bytes) : List.length (SHA256.sha256 msg) = 32%nat.
Proof.
  unfold SHA256.sha256, SHA256.digest.
  rewrite !length_app, !be_bytes_length. reflexivity.
Qed.

Lemma ripemd160_length (msg : bytes) : List.length (RIPEMD160.ripemd160 msg) = 20%nat.
Proof.
  unfold RIPEMD160.ripemd160, RIPEMD160.digest.
  rewrite !length_app, !le_bytes_length. reflexivity.
Qed.

Lemma hash160_length (data : bytes) : List.length (hash160 data) = 20%nat.
Proof. unfold hash160. apply ripemd160_length. Qed.

Lemma doubleSha256_length (data : bytes) : List.length (doubleSha256 data) = 32%nat.
Proof. unfold doubleSha256. apply sha256_length. Qed.

(** ** The library models against published values

    The standard test messages of SHA-256 and RIPEMD-160, the first
    multiples of the secp256k1 generator, and the testnet address of the
    private key 1 as Bitcoin tools print it (same version byte 0x6f). *)

Example sha256_abc :
  Hex.toString (SHA256.sha256 (list_byte_of_string "abc")) =
  "ba7816bf8f01cfea414140de5dae2223b00361a396177a9cb410ff61f20015ad".
Proof. vm_compute. reflexivity. Qed.

Example sha256_two_blocks :
  Hex.toString
    (SHA256.sha256
       (list_byte_of_string "abcdbcdecdefdefgefghfghighijhijkijkljklmklmnlmnomnopnopq")) =
  "248d6a61d20638b8e5c026930c3e6039a33ce45964ff2167f6ecedd419db06c1".
Proof. vm_compute. reflexivity. Qed.

Example ripemd160_abc :
  Hex.toString (RIPEMD160.ripemd160 (list_byte_of_string "abc")) =
  "8eb208f7e05d987a9b044a8e98c6b087f15a0bfc".
Proof. vm_compute. reflexivity. Qed.

Example ripemd160_two_blocks :
  Hex.toString
    (RIPEMD160.ripemd160
       (list_byte_of_string "abcdbcdecdefdefgefghfghighijhijkijkljklmklmnlmnomnopnopq")) =
  "12a053384a9c0c88e405a06c27dcf49ada62eb2b".
Proof. vm_compute. reflexivity. Qed.

Example publicKeyCreate_2 :
  Secp256k1.publicKeyCreate (be_bytes 32 2) =
  Ok (Hex.from "02c6047f9441ed7d6d3045406e95c07cd85c778e4b8cef3ca7abac09b95c709ee5").
Proof. vm_compute. reflexivity. Qed.

Example publicKeyCreate_3 :
  Secp256k1.publicKeyCreate (be_bytes 32 3) =
  Ok (Hex.from "02f9308a019258c31049344f85f89d5229b531c845836f99b08601f113bce036f9").
Proof. vm_compute. reflexivity. Qed.

Example testnet_address_of_key_1 :
  fromPrivateKey (KeyBuffer (be_bytes 32 1)) true =
  Ok (mkWallet "0000000000000000000000000000000000000000000000000000000000000001"
        "2,121,190,102,126,249,220,187,172,85,160,98,149,206,135,11,7,2,155,252,219,45,206,40,217,89,242,129,91,22,248,23,152"
        "mrCDrCybB6J1vRfbwM5hemdJz73FwDBC8r" "testnet").
Proof. vm_compute. reflexivity. Qed.

(** ** The base-58 loops *)

Lemma base58_digits_done (num : Z) (result : string) :
  num <= 0 -> base58_digits num result = result.
Proof.
  intros H. simp base58_digits.
  destruct (Z_gt_dec num 0) as [Hgt|Hle]; [lia|reflexivity].
Qed.

Lemma base58_digits_step (num : Z) (result : string) :
  0 < num ->
  base58_digits num result =
  base58_digits (num / 58) (prepend_symbol (num mod 58) result).
Proof.
  intros H. rewrite base58_digits_equation_1.
  destruct (Z_gt_dec num 0) as [Hgt|Hle]; [reflexivity|lia].
Qed.

Lemma alphabet_get (i : nat) :
  (i < 58)%nat -> exists c, String.get i alphabet = Some c.
Proof.
  intros H.
  do 58 (destruct i as [|i]; [eexists; reflexivity|]).
  lia.
Qed.

Lemma prepend_symbol_in_range (i : Z) (result : string) :
  0 <= i < 58 ->
  exists c, String.get (Z.to_nat i) alphabet = Some c /\
            prepend_symbol i result = String c result.
Proof.
  intros H. destruct (alphabet_get (Z.to_nat i)) as [c Hc]; [lia|].
  exists c. split; [exact Hc|]. unfold prepend_symbol. now rewrite Hc.
Qed.

(** A number with [k + 1] base-58 digits is written with its top digit
    first. *)
Lemma base58_digits_head (k : nat) (num : Z) (result : string) :
  58 ^ Z.of_nat k <= num < 58 ^ Z.of_nat (S k) ->
  exists c tail,
    String.get (Z.to_nat (num / 58 ^ Z.of_nat k)) alphabet = Some c /\
    base58_digits num result = String c tail.
Proof.
  revert num result. induction k as [|k IH]; intros num result Hnum.
  - change (58 ^ Z.of_nat 0) with 1 in *. change (58 ^ Z.of_nat 1) with 58 in Hnum.
    rewrite Z.div_1_r.
    rewrite base58_digits_step by lia.
    rewrite Z.div_small, Z.mod_small by lia.
    rewrite base58_digits_done by lia.
    destruct (prepend_symbol_in_range num result) as (c & Hc & Hp); [lia|].
    exists c, result. split; assumption.
  - rewrite !Nat2Z.inj_succ, !Z.pow_succ_r in Hnum by lia.
    rewrite Nat2Z.inj_succ, Z.pow_succ_r by lia.
    assert (Hk : 0 < 58 ^ Z.of_nat k) by (apply Z.pow_pos_nonneg; lia).
    rewrite base58_digits_step by lia.
    assert (Hq : 58 ^ Z.of_nat k <= num / 58 < 58 ^ Z.of_nat (S k)).
    { rewrite Nat2Z.inj_succ, Z.pow_succ_r by lia. split.
      - apply Z.div_le_lower_bound; lia.
      - apply Z.div_lt_upper_bound; lia. }
    destruct (IH (num / 58) (prepend_symbol (num mod 58) result) Hq)
      as (c & tail & Hc & Hd).
    exists c, tail. split; [|exact Hd].
    rewrite <- Z.div_div by lia. exact Hc.
Qed.

Lemma repeat_char_shift (c : ascii) (n : nat) (s : string) :
  (repeat_char c n ++ String c s)%string = String c (repeat_char c n ++ s)%string.
Proof.
  induction n as [|n IH]; [reflexivity|].
  cbn [repeat_char String.append]. now rewrite IH.
Qed.

Lemma base58_leading_zeros_all (n : nat) (result : string) :
  base58_leading_zeros (repeat x00 n) result = (repeat_char "1" n ++ result)%string.
Proof.
  revert result. induction n as [|n IH]; intros result; [reflexivity|].
  cbn [repeat base58_leading_zeros repeat_char String.append].
  rewrite IH. apply repeat_char_shift.
Qed.

Lemma base58_leading_zeros_none (b : byte) (rest : bytes) (result : string) :
  b <> x00 -> base58_leading_zeros (b :: rest) result = result.
Proof.
  intros H. destruct b; try reflexivity. congruence.
Qed.

Lemma append_empty_r (s : string) : (s ++ "")%string = s.
Proof. induction s as [|c s IH]; [reflexivity|]. cbn. now rewrite IH. Qed.

(** On a buffer that has at least one byte the encoder does not throw. *)
Lemma base58Encode_nonempty (b : byte) (rest : bytes) :
  base58Encode (b :: rest) =
  Ok (base58_leading_zeros (b :: rest) (base58_digits (be_value (b :: rest)) "")).
Proof.
  unfold base58Encode. rewrite BigInt_hex_nonempty. reflexivity.
Qed.

(** The encoding of [n + 1] zero bytes is [n + 1] times the letter ['1']. *)
Lemma base58Encode_zeros (n : nat) :
  base58Encode (repeat x00 (S n)) = Ok (repeat_char "1" (S n)).
Proof.
  change (repeat x00 (S n)) with (x00 :: repeat x00 n) at 1.
  rewrite base58Encode_nonempty.
  change (x00 :: repeat x00 n) with (repeat x00 (S n)).
  rewrite be_value_zeros, base58_digits_done by lia.
  rewrite base58_leading_zeros_all, append_empty_r. reflexivity.
Qed.

(** ** Keys *)

Lemma serialize_length (P : Secp256k1.point) :
  List.length (Secp256k1.serialize P) = 33%nat.
Proof.
  destruct P as [|x y]; cbn [Secp256k1.serialize List.length].
  - apply repeat_length.
  - now rewrite be_bytes_length.
Qed.

Lemma privateKeyVerify_true (sk : bytes) :
  Secp256k1.privateKeyVerify sk = true <->
  List.length sk = 32%nat /\ 0 < be_value sk < Secp256k1.n.
Proof.
  unfold Secp256k1.privateKeyVerify.
  rewrite !andb_true_iff, Nat.eqb_eq, Z.ltb_lt, Z.ltb_lt. tauto.
Qed.

Lemma privateKeyVerify_false (sk : bytes) :
  List.length sk = 32%nat ->
  Secp256k1.privateKeyVerify sk = false <->
  be_value sk = 0 \/ Secp256k1.n <= be_value sk.
Proof.
  intros Hlen. pose proof (be_value_range sk) as Hr.
  rewrite <- not_true_iff_false, privateKeyVerify_true. lia.
Qed.

Lemma publicKeyCreate_valid (sk : bytes) :
  Secp256k1.privateKeyVerify sk = true ->
  Secp256k1.publicKeyCreate sk =
  Ok (Secp256k1.serialize
        (Secp256k1.mul (Z.to_pos (be_value sk)) Secp256k1.G)).
Proof.
  intros H. unfold Secp256k1.publicKeyCreate, Secp256k1.privateKeyVerify in *.
  apply andb_true_iff in H as [Hlen Hrange].
  now rewrite Hlen, Hrange.
Qed.

Lemma privateKeyVerify_call_32 (sk : bytes) :
  List.length sk = 32%nat ->
  Secp256k1.privateKeyVerify_call sk = Ok (Secp256k1.privateKeyVerify sk).
Proof.
  intros Hlen. apply Nat.eqb_eq in Hlen.
  unfold Secp256k1.privateKeyVerify_call. now rewrite Hlen.
Qed.

Lemma getPublicKey_valid (sk : bytes) :
  Secp256k1.privateKeyVerify sk = true ->
  getPublicKey sk =
  Ok (Secp256k1.serialize
        (Secp256k1.mul (Z.to_pos (be_value sk)) Secp256k1.G)).
Proof.
  intros H. pose proof (proj1 (privateKeyVerify_true sk) H) as [Hlen _].
  unfold getPublicKey. rewrite (privateKeyVerify_call_32 sk Hlen), H.
  cbn [bind negb]. now apply publicKeyCreate_valid.
Qed.

Lemma getPublicKey_invalid (sk : bytes) :
  List.length sk = 32%nat ->
  Secp256k1.privateKeyVerify sk = false ->
  getPublicKey sk = Throw (Error "Invalid private key").
Proof.
  intros Hlen H. unfold getPublicKey.
  rewrite (privateKeyVerify_call_32 sk Hlen), H. reflexivity.
Qed.

(** A key of another length does not reach the check of [getPublicKey]:
    the assertion of the package fails first. *)
Lemma getPublicKey_wrong_length (sk : bytes) :
  List.length sk <> 32%nat ->
  getPublicKey sk =
  Throw (Error "Expected private key to be an Uint8Array with length 32").
Proof.
  intros Hlen. apply Nat.eqb_neq in Hlen.
  unfold getPublicKey, Secp256k1.privateKeyVerify_call. now rewrite Hlen.
Qed.

(** ** The address payload *)

(** The buffer that [createAddress] hands to the encoder. *)
Lemma createAddress_payload (pk : bytes) (testnet : bool) :
  createAddress pk testnet =
  base58Encode
    ((if testnet then x6f else x55) ::
     hash160 pk ++
     firstn 4 (doubleSha256 ((if testnet then x6f else x55) :: hash160 pk))).
Proof. destruct testnet; reflexivity. Qed.

Lemma payload_tail_length (pk : bytes) (v : byte) :
  List.length (hash160 pk ++ firstn 4 (doubleSha256 (v :: hash160 pk))) = 24%nat.
Proof.
  rewrite length_app, length_firstn, hash160_length, doubleSha256_length.
  reflexivity.
Qed.

(** A 25-byte buffer whose first byte is not zero has 34 base-58 digits at
    most; when it has exactly 34 the first letter of its encoding is the
    symbol of the quotient by 58^33. *)
Lemma base58Encode_head (b : byte) (rest : bytes) :
  List.length rest = 24%nat ->
  b <> x00 ->
  58 ^ 33 <= be_value (b :: rest) < 58 ^ 34 ->
  exists c tail,
    String.get (Z.to_nat (be_value (b :: rest) / 58 ^ 33)) alphabet = Some c /\
    base58Encode (b :: rest) = Ok (String c tail).
Proof.
  intros Hlen Hb Hv.
  rewrite base58Encode_nonempty, base58_leading_zeros_none by exact Hb.
  destruct (base58_digits_head 33 (be_value (b :: rest)) "" Hv)
    as (c & tail & Hc & Hd).
  exists c, tail. split; [exact Hc|]. now rewrite Hd.
Qed.

Lemma payload_value_bounds (b : byte) (rest : bytes) :
  List.length rest = 24%nat ->
  Z_of_byte b * 256 ^ 24 <= be_value (b :: rest) < (Z_of_byte b + 1) * 256 ^ 24.
Proof.
  intros Hlen. rewrite be_value_cons.
  pose proof (be_value_range rest) as Hr. rewrite Hlen in *.
  change (Z.of_nat 24) with 24 in *. lia.
Qed.

Lemma startsWith_head (c : ascii) (tail : string) :
  startsWith (String c tail) (String c "") = true.
Proof.
  unfold startsWith. cbn [String.prefix].
  destruct (ascii_dec c c) as [_|Hne]; [|congruence].
  now destruct tail.
Qed.

(** Every mainnet address begins with [b]. *)
Lemma createAddress_mainnet_head (pk : bytes) :
  exists a, createAddress pk false = Ok a /\ startsWith a "b" = true.
Proof.
  rewrite createAddress_payload.
  pose proof (payload_value_bounds x55 _ (payload_tail_length pk x55)) as Hv.
  change (Z_of_byte x55) with 85 in Hv.
  set (rest := hash160 pk ++ firstn 4 (doubleSha256 (x55 :: hash160 pk))) in *.
  assert (Hq : be_value (x55 :: rest) / 58 ^ 33 = 34).
  { apply Z.le_antisymm.
    - apply Z.lt_succ_r. apply Z.div_lt_upper_bound; lia.
    - apply Z.div_le_lower_bound; lia. }
  destruct (base58Encode_head x55 rest) as (c & tail & Hc & He).
  - apply payload_tail_length.
  - discriminate.
  - lia.
  - rewrite Hq in Hc. vm_compute in Hc. injection Hc as <-.
    exists (String "b" tail). split; [exact He|]. apply startsWith_head.
Qed.

(** Every testnet address begins with [m] or [n]. *)
Lemma createAddress_testnet_head (pk : bytes) :
  exists a, createAddress pk true = Ok a /\
            (startsWith a "m" = true \/ startsWith a "n" = true).
Proof.
  rewrite createAddress_payload.
  pose proof (payload_value_bounds x6f _ (payload_tail_length pk x6f)) as Hv.
  change (Z_of_byte x6f) with 111 in Hv.
  set (rest := hash160 pk ++ firstn 4 (doubleSha256 (x6f :: hash160 pk))) in *.
  assert (Hq : 44 <= be_value (x6f :: rest) / 58 ^ 33 < 46).
  { split.
    - apply Z.div_le_lower_bound; lia.
    - apply Z.div_lt_upper_bound; lia. }
  destruct (base58Encode_head x6f rest) as (c & tail & Hc & He).
  - apply payload_tail_length.
  - discriminate.
  - lia.
  - assert (Hcase : be_value (x6f :: rest) / 58 ^ 33 = 44 \/
                    be_value (x6f :: rest) / 58 ^ 33 = 45) by lia.
    destruct Hcase as [E|E]; rewrite E in Hc; vm_compute in Hc;
      injection Hc as <-; eexists; (split; [exact He|]).
    + left. apply startsWith_head.
    + right. apply startsWith_head.
Qed.

(** ** Random keys *)

Lemma randomBytes_length (size : nat) (w : World) :
  List.length (fst (randomBytes size w)) = size.
Proof. unfold randomBytes. cbn [fst]. now rewrite length_map, length_seq. Qed.

Lemma draw_first (w : World) : draw w 0 = fst (randomBytes 32 w).
Proof.
  unfold draw, randomBytes. cbn [fst entropy consumed].
  now rewrite Nat.mul_0_r, Nat.add_0_r.
Qed.

Lemma draw_next (w : World) (j : nat) :
  draw w (S j) = draw (snd (randomBytes 32 w)) j.
Proof.
  unfold draw, randomBytes. cbn [fst snd entropy consumed].
  replace (consumed w + 32 * S j)%nat with (consumed w + 32 + 32 * j)%nat by lia.
  reflexivity.
Qed.

Lemma generatePrivateKey_unfold (fuel : nat) (w : World) :
  generatePrivateKey (S fuel) w =
  if Secp256k1.privateKeyVerify (draw w 0)
  then Some (draw w 0, snd (randomBytes 32 w))
  else generatePrivateKey fuel (snd (randomBytes 32 w)).
Proof. rewrite draw_first. reflexivity. Qed.

(** A key that [generatePrivateKey] returns passed the check: it is one of
    the draws, and no earlier draw was accepted. *)
Lemma generatePrivateKey_sound (fuel : nat) (w w' : World) (k : bytes) :
  generatePrivateKey fuel w = Some (k, w') ->
  Secp256k1.privateKeyVerify k = true /\
  exists j, (j < fuel)%nat /\ k = draw w j /\
            forall i, (i < j)%nat -> Secp256k1.privateKeyVerify (draw w i) = false.
Proof.
  revert w. induction fuel as [|fuel IH]; intros w H; [discriminate|].
  rewrite generatePrivateKey_unfold in H.
  destruct (Secp256k1.privateKeyVerify (draw w 0)) eqn:Hv.
  - injection H as <- <-. split; [exact Hv|].
    exists 0%nat. repeat split; [lia|intros i Hi; lia].
  - destruct (IH _ H) as (Hvalid & j & Hj & Hkj & Hbefore).
    split; [exact Hvalid|].
    exists (S j). repeat split; [lia| |].
    + rewrite draw_next. exact Hkj.
    + intros [|i] Hi; [exact Hv|].
      rewrite draw_next. apply Hbefore. lia.
Qed.

(** The loop ends as soon as the source delivers an acceptable block. *)
Lemma generatePrivateKey_terminates (w : World) (j fuel : nat) :
  Secp256k1.privateKeyVerify (draw w j) = true ->
  (j < fuel)%nat ->
  exists k w', generatePrivateKey fuel w = Some (k, w').
Proof.
  revert w fuel. induction j as [|j IH]; intros w fuel Hv Hfuel;
    (destruct fuel as [|fuel]; [lia|]); rewrite generatePrivateKey_unfold.
  - rewrite Hv. eauto.
  - destruct (Secp256k1.privateKeyVerify (draw w 0)); [eauto|].
    apply IH; [|lia]. rewrite <- draw_next. exact Hv.
Qed.

(** ** Wallets *)

Lemma fromPrivateKey_valid (input : KeyArgument) (testnet : bool) (k : bytes) :
  k = match input with KeyString s => Hex.from s | KeyBuffer b => b end ->
  Secp256k1.privateKeyVerify k = true ->
  fromPrivateKey input testnet =
  let* pk := getPublicKey k in
  let* a := createAddress pk testnet in
  Ok (mkWallet (Hex.toString k) (Uint8Array_toString pk) a (network_name testnet)).
Proof.
  intros -> Hv. apply privateKeyVerify_true in Hv as [Hlen _].
  unfold fromPrivateKey. now rewrite Hlen.
Qed.

Lemma createAddress_total (pk : bytes) (testnet : bool) :
  exists a, createAddress pk testnet = Ok a.
Proof.
  destruct testnet.
  - destruct (createAddress_testnet_head pk) as (a & Ha & _). eauto.
  - destruct (createAddress_mainnet_head pk) as (a & Ha & _). eauto.
Qed.

(** The wallet of a valid key: both steps succeed. *)
Lemma wallet_of_valid_key (k : bytes) (testnet : bool) :
  Secp256k1.privateKeyVerify k = true ->
  exists pk a,
    getPublicKey k = Ok pk /\ createAddress pk testnet = Ok a /\
    (let* pk := getPublicKey k in
     let* a := createAddress pk testnet in
     Ok (mkWallet (Hex.toString k) (Uint8Array_toString pk) a (network_name testnet))) =
    Ok (mkWallet (Hex.toString k) (Uint8Array_toString pk) a (network_name testnet)).
Proof.
  intros Hv. rewrite (getPublicKey_valid _ Hv).
  set (pk := Secp256k1.serialize _).
  destruct (createAddress_total pk testnet) as [a Ha].
  exists pk, a. cbn [bind]. rewrite Ha. auto.
Qed.

Lemma generateWallet_selected (fuel : nat) (testnet : bool) (w w' : World) (k : bytes) :
  generatePrivateKey fuel w = Some (k, w') ->
  generateWallet fuel testnet w =
  Some (let* pk := getPublicKey k in
        let* a := createAddress pk testnet in
        Ok (mkWallet (Hex.toString k) (Uint8Array_toString pk) a (network_name testnet)),
        w').
Proof. intros H. unfold generateWallet. now rewrite H. Qed.

Lemma generateWallet_inv (fuel : nat) (testnet : bool) (w w' : World) (r : Result Wallet) :
  generateWallet fuel testnet w = Some (r, w') ->
  exists k,
    generatePrivateKey fuel w = Some (k, w') /\
    r = (let* pk := getPublicKey k in
         let* a := createAddress pk testnet in
         Ok (mkWallet (Hex.toString k) (Uint8Array_toString pk) a (network_name testnet))).
Proof.
  unfold generateWallet. destruct (generatePrivateKey fuel w) as [[k w0]|]; [|discriminate].
  intros H. injection H as <- <-. eauto.
Qed.

(** ** Reading base-58 text back *)

Lemma Ok_inj {A} (x y : A) : Ok x = Ok y -> x = y.
Proof. intros H. now injection H. Qed.

Lemma base58_value_shift (s : string) (acc : Z) :
  base58_value_from acc s =
  acc * 58 ^ Z.of_nat (String.length s) + base58_value s.
Proof.
  unfold base58_value. revert acc.
  induction s as [|c rest IH]; intros acc.
  - cbn. lia.
  - cbn [base58_value_from String.length].
    rewrite IH, (IH (0 * 58 + symbol_value c)).
    rewrite Nat2Z.inj_succ, Z.pow_succ_r by lia. ring.
Qed.

Lemma base58_value_cons (c : ascii) (s : string) :
  base58_value (String c s) =
  symbol_value c * 58 ^ Z.of_nat (String.length s) + base58_value s.
Proof.
  unfold base58_value at 1. cbn [base58_value_from].
  rewrite base58_value_shift. ring.
Qed.

Lemma symbol_value_get (i : nat) (c : ascii) :
  String.get i alphabet = Some c -> symbol_value c = Z.of_nat i.
Proof.
  do 58 (destruct i as [|i]; [intros H; injection H as <-; reflexivity|]).
  discriminate.
Qed.

Lemma prepend_symbol_value (i : Z) (result : string) :
  0 <= i < 58 ->
  exists c, prepend_symbol i result = String c result /\ symbol_value c = i.
Proof.
  intros H. destruct (prepend_symbol_in_range i result H) as (c & Hc & Hp).
  exists c. split; [exact Hp|]. rewrite (symbol_value_get _ _ Hc). lia.
Qed.

(** The loop writes [num] in base 58 in front of [result]. *)
Lemma base58_digits_value (num : Z) :
  0 <= num ->
  forall result,
    (String.length result <= String.length (base58_digits num result))%nat /\
    base58_value (base58_digits num result) =
    num * 58 ^ Z.of_nat (String.length result) + base58_value result.
Proof.
  intros Hnum. pattern num. apply Zlt_0_ind; [|exact Hnum].
  clear num Hnum. intros num IH Hnum result.
  destruct (Z.eq_dec num 0) as [->|Hne].
  - rewrite base58_digits_done by lia. split; [lia|ring].
  - rewrite base58_digits_step by lia.
    pose proof (Z.mod_pos_bound num 58 ltac:(lia)) as Hm.
    destruct (prepend_symbol_value (num mod 58) result Hm) as (c & -> & Hc).
    assert (Hq : 0 <= num / 58 < num).
    { split; [apply Z.div_pos; lia|apply Z.div_lt; lia]. }
    destruct (IH (num / 58) Hq (String c result)) as [Hlen Hval].
    cbn [String.length] in Hlen, Hval. split; [lia|].
    rewrite Hval, base58_value_cons, Hc.
    rewrite Nat2Z.inj_succ, Z.pow_succ_r by lia.
    pose proof (Z.div_mod num 58 ltac:(lia)) as Hdm.
    set (P := 58 ^ Z.of_nat (String.length result)).
    replace (num * P) with ((58 * (num / 58) + num mod 58) * P) by (now rewrite <- Hdm).
    ring.
Qed.

Lemma base58_leading_zeros_value (data : bytes) (result : string) :
  base58_value (base58_leading_zeros data result) = base58_value result.
Proof.
  revert result. induction data as [|b rest IH]; intros result; [reflexivity|].
  destruct b; try reflexivity.
  cbn [base58_leading_zeros]. rewrite IH, base58_value_cons.
  change (symbol_value "1") with 0. lia.
Qed.

Lemma base58_value_of_encoding (data : bytes) (s : string) :
  base58Encode data = Ok s -> base58_value s = be_value data.
Proof.
  destruct data as [|b rest]; [discriminate|].
  rewrite base58Encode_nonempty. intros H. apply Ok_inj in H. subst s.
  rewrite base58_leading_zeros_value.
  pose proof (be_value_range (b :: rest)) as Hr.
  destruct (base58_digits_value (be_value (b :: rest)) (proj1 Hr) "") as [_ Hv].
  rewrite Hv. cbn [String.length]. change (58 ^ Z.of_nat 0) with 1.
  change (base58_value "") with 0. lia.
Qed.

(** ** The symbols of the output *)

Lemma index_in_get (c : ascii) (s : string) :
  index_in c s < Z.of_nat (String.length s) ->
  String.get (Z.to_nat (index_in c s)) s = Some c.
Proof.
  induction s as [|c' rest IH]; cbn [index_in String.length]; [lia|].
  intros H. destruct (Ascii.eqb_spec c c') as [->|Hne].
  - reflexivity.
  - assert (Hnn : 0 <= index_in c rest).
    { clear. induction rest as [|d r IHr]; cbn [index_in]; [lia|].
      destruct (Ascii.eqb c d); lia. }
    replace (Z.to_nat (1 + index_in c rest)) with (S (Z.to_nat (index_in c rest))) by lia.
    cbn [String.get]. apply IH. lia.
Qed.

Lemma base58_digits_alphabet (num : Z) :
  0 <= num ->
  forall result,
    all_in_alphabet result = true ->
    all_in_alphabet (base58_digits num result) = true.
Proof.
  intros Hnum. pattern num. apply Zlt_0_ind; [|exact Hnum].
  clear num Hnum. intros num IH Hnum result Hres.
  destruct (Z.eq_dec num 0) as [->|Hne].
  - now rewrite base58_digits_done by lia.
  - rewrite base58_digits_step by lia.
    pose proof (Z.mod_pos_bound num 58 ltac:(lia)) as Hm.
    destruct (prepend_symbol_value (num mod 58) result Hm) as (c & -> & Hc).
    apply IH.
    + split; [apply Z.div_pos; lia|apply Z.div_lt; lia].
    + cbn [all_in_alphabet]. rewrite Hc, Hres.
      destruct (Z.ltb_spec (num mod 58) 58); [reflexivity|lia].
Qed.

Lemma base58_leading_zeros_alphabet (data : bytes) (result : string) :
  all_in_alphabet result = true ->
  all_in_alphabet (base58_leading_zeros data result) = true.
Proof.
  revert result. induction data as [|b rest IH]; intros result H; [exact H|].
  destruct b; try exact H.
  cbn [base58_leading_zeros]. apply IH. cbn [all_in_alphabet].
  now rewrite H.
Qed.

Lemma all_in_alphabet_get (s : string) :
  all_in_alphabet s = true ->
  forall i c, String.get i s = Some c ->
              exists j, String.get j alphabet = Some c.
Proof.
  induction s as [|d rest IH]; intros H i c Hget; [discriminate|].
  cbn [all_in_alphabet] in H. apply andb_true_iff in H as [Hd Hrest].
  destruct i as [|i]; cbn [String.get] in Hget.
  - injection Hget as ->. apply Z.ltb_lt in Hd.
    exists (Z.to_nat (symbol_value c)). apply index_in_get. exact Hd.
  - exact (IH Hrest i c Hget).
Qed.

(** ** Length of an address *)

(** A number with [k + 1] base-58 digits adds [k + 1] characters. *)
Lemma base58_digits_length (k : nat) (num : Z) (result : string) :
  58 ^ Z.of_nat k <= num < 58 ^ Z.of_nat (S k) ->
  String.length (base58_digits num result) = (S k + String.length result)%nat.
Proof.
  revert num result. induction k as [|k IH]; intros num result Hnum.
  - change (58 ^ Z.of_nat 0) with 1 in Hnum. change (58 ^ Z.of_nat 1) with 58 in Hnum.
    rewrite base58_digits_step by lia.
    rewrite Z.div_small, Z.mod_small by lia.
    rewrite base58_digits_done by lia.
    destruct (prepend_symbol_in_range num result) as (c & _ & ->); [lia|].
    reflexivity.
  - rewrite !Nat2Z.inj_succ, !Z.pow_succ_r in Hnum by lia.
    assert (Hk : 0 < 58 ^ Z.of_nat k) by (apply Z.pow_pos_nonneg; lia).
    rewrite base58_digits_step by lia.
    pose proof (Z.mod_pos_bound num 58 ltac:(lia)) as Hm.
    destruct (prepend_symbol_in_range (num mod 58) result Hm) as (c & _ & ->).
    rewrite IH.
    + cbn [String.length]. lia.
    + rewrite Nat2Z.inj_succ, Z.pow_succ_r by lia. split.
      * apply Z.div_le_lower_bound; lia.
      * apply Z.div_lt_upper_bound; lia.
Qed.

Lemma createAddress_length (pk : bytes) (testnet : bool) (a : string) :
  createAddress pk testnet = Ok a -> String.length a = 34%nat.
Proof.
  rewrite createAddress_payload. set (v := if testnet then x6f else x55).
  set (rest := hash160 pk ++ firstn 4 (doubleSha256 (v :: hash160 pk))).
  assert (Hlen : List.length rest = 24%nat) by apply payload_tail_length.
  pose proof (payload_value_bounds v rest Hlen) as Hv.
  assert (Hb : Z_of_byte v = 85 \/ Z_of_byte v = 111) by (destruct testnet; auto).
  assert (Hne : v <> x00) by (destruct testnet; discriminate).
  rewrite base58Encode_nonempty, base58_leading_zeros_none by exact Hne.
  intros H. apply Ok_inj in H. subst a.
  rewrite (base58_digits_length 33); [reflexivity|].
  change (Z.of_nat 33) with 33. change (Z.of_nat 34) with 34. lia.
Qed.

(** ** Bytes of a value *)

Lemma byte_of_Z_mod (z : Z) : byte_of_Z (z mod 256) = byte_of_Z z.
Proof. unfold byte_of_Z. now rewrite Z.mod_mod by lia. Qed.

Lemma be_value_snoc (l : bytes) (b : byte) :
  be_value (l ++ [b]) = be_value l * 256 + Z_of_byte b.
Proof. unfold be_value. now rewrite fold_left_app. Qed.

Lemma le_bytes_be_value (l : bytes) :
  le_bytes (List.length l) (be_value l) = rev l.
Proof.
  induction l as [|b l IH] using rev_ind; [reflexivity|].
  pose proof (Z_of_byte_range b) as Hb.
  rewrite length_app, Nat.add_1_r, rev_app_distr, be_value_snoc.
  cbn [le_bytes rev app List.length]. f_equal.
  - rewrite <- byte_of_Z_mod, Z.add_comm, Z.mod_add, Z.mod_small by lia.
    apply byte_of_Z_of_byte.
  - rewrite Z.add_comm, Z.div_add, Z.div_small by lia. exact IH.
Qed.

Lemma firstn_length_app {A} (l m : list A) : firstn (List.length l) (l ++ m) = l.
Proof. induction l as [|x l IH]; [reflexivity|]. cbn. now rewrite IH. Qed.

Lemma skipn_length_app {A} (l m : list A) : skipn (List.length l) (l ++ m) = m.
Proof. induction l as [|x l IH]; [reflexivity|]. exact IH. Qed.

Lemma be_bytes_be_value (l : bytes) : be_bytes (List.length l) (be_value l) = l.
Proof. unfold be_bytes. now rewrite le_bytes_be_value, rev_involutive. Qed.

(** ** One text per value *)

Lemma index_in_nonneg (c : ascii) (s : string) : 0 <= index_in c s.
Proof.
  induction s as [|d rest IH]; cbn [index_in]; [lia|].
  destruct (Ascii.eqb c d); lia.
Qed.

Lemma symbol_value_inj (c d : ascii) :
  symbol_value c < 58 -> symbol_value c = symbol_value d -> c = d.
Proof.
  intros Hc E.
  assert (Hd : symbol_value d < 58) by lia.
  pose proof (index_in_get c alphabet Hc) as Gc.
  pose proof (index_in_get d alphabet Hd) as Gd.
  fold (symbol_value c) in Gc. fold (symbol_value d) in Gd.
  rewrite E in Gc. rewrite Gc in Gd. now injection Gd.
Qed.

Lemma base58_value_range (s : string) :
  all_in_alphabet s = true ->
  0 <= base58_value s < 58 ^ Z.of_nat (String.length s).
Proof.
  induction s as [|c rest IH]; intros H.
  - cbn. lia.
  - cbn [all_in_alphabet] in H. apply andb_true_iff in H as [Hc Hrest].
    apply Z.ltb_lt in Hc. specialize (IH Hrest).
    pose proof (index_in_nonneg c alphabet) as Hn. fold (symbol_value c) in Hn.
    rewrite base58_value_cons. cbn [String.length].
    rewrite Nat2Z.inj_succ, Z.pow_succ_r by lia.
    assert (0 < 58 ^ Z.of_nat (String.length rest)) by (apply Z.pow_pos_nonneg; lia).
    nia.
Qed.

(** Two texts of the same length over the alphabet that denote the same
    number are the same text. *)
Lemma base58_value_inj_same_length (s1 s2 : string) :
  all_in_alphabet s1 = true -> all_in_alphabet s2 = true ->
  String.length s1 = String.length s2 ->
  base58_value s1 = base58_value s2 -> s1 = s2.
Proof.
  revert s2. induction s1 as [|c r1 IH]; intros [|d r2] H1 H2 Hlen Hval;
    try discriminate Hlen; [reflexivity|].
  cbn [String.length] in Hlen. injection Hlen as Hlen.
  cbn [all_in_alphabet] in H1, H2.
  apply andb_true_iff in H1 as [Hc H1]. apply andb_true_iff in H2 as [Hd H2].
  apply Z.ltb_lt in Hc.
  rewrite !base58_value_cons, <- Hlen in Hval.
  pose proof (base58_value_range r1 H1) as R1.
  pose proof (base58_value_range r2 H2) as R2. rewrite <- Hlen in R2.
  set (P := 58 ^ Z.of_nat (String.length r1)) in *.
  assert (HP : 0 < P) by (apply Z.pow_pos_nonneg; lia).
  destruct (Z.div_mod_unique P (symbol_value c) (symbol_value d)
              (base58_value r1) (base58_value r2)) as [Hq Hr]; [lia|lia|lia|].
  apply (symbol_value_inj c d Hc) in Hq. subst d. f_equal. now apply IH.
Qed.

Lemma base58Encode_all_in_alphabet (data : bytes) (s : string) :
  base58Encode data = Ok s -> all_in_alphabet s = true.
Proof.
  destruct data as [|b rest]; [discriminate|].
  rewrite base58Encode_nonempty. intros H. apply Ok_inj in H. subst s.
  apply base58_leading_zeros_alphabet, base58_digits_alphabet.
  - apply be_value_range.
  - reflexivity.
Qed.

(** ** The validator *)

Lemma starts_with_bm1_true (s : string) :
  starts_with_bm1 s = true <->
  exists c rest, s = String c rest /\
                 (c = "b"%char \/ c = "m"%char \/ c = "1"%char).
Proof.
  destruct s as [|c rest]; cbn [starts_with_bm1].
  - split; [discriminate|]. intros (c & rest & H & _). discriminate.
  - rewrite !orb_true_iff, !Ascii.eqb_eq. split.
    + intros H. exists c, rest. tauto.
    + intros (c' & rest' & H & Hc). injection H as -> ->. tauto.
Qed.

Lemma startsWith_char (s : string) (c : ascii) :
  startsWith s (String c "") = true <-> exists rest, s = String c rest.
Proof.
  unfold startsWith. destruct s as [|c' rest]; cbn [String.prefix].
  - split; [discriminate|]. intros [rest H]. discriminate.
  - destruct (ascii_dec c c') as [->|Hne].
    + split; [eauto|]. intros _. now destruct rest.
    + split; [discriminate|]. intros [rest' H]. congruence.
Qed.

Lemma validateAddress_true (s : string) :
  validateAddress s = true <->
  (26 <= String.length s <= 35)%nat /\ starts_with_bm1 s = true.
Proof.
  unfold validateAddress.
  destruct (Nat.ltb_spec (String.length s) 26) as [Hlo|Hlo];
    destruct (Nat.ltb_spec 35 (String.length s)) as [Hhi|Hhi];
    cbn [orb]; try (split; [discriminate|intros [? _]; lia]).
  destruct (starts_with_bm1 s); cbn [negb].
  - split; [intros _; split; [lia|reflexivity]|reflexivity].
  - split; [discriminate|intros [_ ?]; discriminate].
Qed.

(* ===================================================================== *)
(** * Part III: the claims                                                *)
(* ===================================================================== *)

(** C1.  For every public key buffer [pk] and network selector,
    [createAddress] returns, without throwing, the base-58 encoding of the
    25-byte buffer made of the version byte (0x55 mainnet, 0x6f testnet), the
    20-byte RIPEMD-160 of the SHA-256 of [pk], and the first four bytes of the
    double SHA-256 of version byte and hash.  The address is the text that
    [base58Encode] gives for that buffer, and it is the base-58 numeral of
    the buffer: its 34 characters are symbols of the alphabet, their base-58
    value is the big-endian value of the buffer, whose 25 bytes can be read
    back from it, and no other text of 34 symbols has that value. *)
Theorem createAddress_spec (pk : bytes) (testnet : bool) :
  let version := if testnet then x6f else x55 in
  let h := RIPEMD160.ripemd160 (SHA256.sha256 pk) in
  let checksum := firstn 4 (SHA256.sha256 (SHA256.sha256 (version :: h))) in
  let payload := version :: h ++ checksum in
  Z_of_byte version = (if testnet then 0x6f else 0x55) /\
  List.length h = 20%nat /\
  List.length checksum = 4%nat /\
  List.length payload = 25%nat /\
  exists a,
    createAddress pk testnet = Ok a /\
    base58Encode payload = Ok a /\
    base58_value a = be_value payload /\
    be_bytes 25 (base58_value a) = payload /\
    String.length a = 34%nat /\
    (forall i c, String.get i a = Some c ->
                 exists j, String.get j alphabet = Some c) /\
    (forall s, String.length s = 34%nat -> all_in_alphabet s = true ->
               base58_value s = be_value payload -> s = a).
Proof.
  intros version h checksum payload.
  assert (Hh : List.length h = 20%nat) by apply ripemd160_length.
  assert (Hc : List.length checksum = 4%nat).
  { unfold checksum. rewrite length_firstn, sha256_length. reflexivity. }
  assert (Hp : List.length payload = 25%nat).
  { unfold payload. cbn [List.length]. now rewrite length_app, Hh, Hc. }
  split; [|split; [|split; [|split]]].
  - now destruct testnet.
  - exact Hh.
  - exact Hc.
  - exact Hp.
  - destruct (createAddress_total pk testnet) as [a Ha].
    assert (He : base58Encode payload = Ok a).
    { rewrite createAddress_payload in Ha. exact Ha. }
    pose proof (base58_value_of_encoding payload a He) as Hv.
    pose proof (createAddress_length pk testnet a Ha) as Hlen.
    pose proof (base58Encode_all_in_alphabet payload a He) as Hal.
    exists a.
    split; [exact Ha|]. split; [exact He|]. split; [exact Hv|].
    split; [rewrite Hv, <- Hp; apply be_bytes_be_value|].
    split; [exact Hlen|].
    split; [exact (all_in_alphabet_get a Hal)|].
    intros s Hs Hs_al Hs_v.
    apply base58_value_inj_same_length;
      [exact Hs_al|exact Hal|now rewrite Hs, Hlen|now rewrite Hs_v, Hv].
Qed.

(** C2.  At the empty buffer [base58Encode] does not return the empty
    string: [BigInt('0x')] throws a SyntaxError.  (For one or more zero
    bytes the result is that many ['1'], see [base58Encode_zeros].) *)
Theorem base58Encode_empty_throws :
  base58Encode [] = Throw (SyntaxError "Cannot convert 0x to a BigInt") /\
  base58Encode (repeat x00 0) <> Ok (repeat_char "1" 0).
Proof. split; [reflexivity|discriminate]. Qed.

(** C3, as stated, fails: the inputs ["invalid_hex"] and ["1234"] do not
    fail with two distinct errors. *)
Lemma fromPrivateKey_errors_not_distinct :
  ~ exists e1 e2,
      fromPrivateKey (KeyString "invalid_hex") false = Throw e1 /\
      fromPrivateKey (KeyString "1234") false = Throw e2 /\
      e1 <> e2.
Proof.
  intros (e1 & e2 & H1 & H2 & Hne).
  vm_compute in H1, H2. congruence.
Qed.

(** C3, amended.  [fromPrivateKey] has a single input error: whenever the
    decoded key is not 32 bytes long it throws
    [Error('Private key must be 32 bytes')], and text that is not hex
    decodes to a shorter buffer, so ["invalid_hex"] and ["1234"] fail with
    this same error.  A 32-byte key that fails the curve check throws
    [Error('Invalid private key')]; every other key gives a wallet. *)
Theorem fromPrivateKey_errors (input : KeyArgument) (testnet : bool) :
  let key := match input with KeyString s => Hex.from s | KeyBuffer b => b end in
  (List.length key <> 32%nat ->
   fromPrivateKey input testnet = Throw (Error "Private key must be 32 bytes")) /\
  (List.length key = 32%nat -> Secp256k1.privateKeyVerify key = false ->
   fromPrivateKey input testnet = Throw (Error "Invalid private key")) /\
  (Secp256k1.privateKeyVerify key = true ->
   exists wallet, fromPrivateKey input testnet = Ok wallet) /\
  fromPrivateKey (KeyString "invalid_hex") testnet =
    Throw (Error "Private key must be 32 bytes") /\
  fromPrivateKey (KeyString "1234") testnet =
    Throw (Error "Private key must be 32 bytes").
Proof.
  intros key. split; [|split; [|split; [|split; reflexivity]]].
  - intros Hlen. apply Nat.eqb_neq in Hlen.
    unfold fromPrivateKey. fold key. now rewrite Hlen.
  - intros Hlen Hv. pose proof (proj2 (Nat.eqb_eq _ _) Hlen) as Hb.
    unfold fromPrivateKey. fold key. rewrite Hb. cbn [negb].
    now rewrite (getPublicKey_invalid _ Hlen Hv).
  - intros Hv. rewrite (fromPrivateKey_valid input testnet key eq_refl Hv).
    destruct (wallet_of_valid_key key testnet Hv) as (pk & a & _ & _ & H).
    rewrite H. eauto.
Qed.

Lemma fromPrivateKey_errors_witness :
  List.length (Hex.from "12zz") <> 32%nat /\
  fromPrivateKey (KeyString "12zz") true =
    Throw (Error "Private key must be 32 bytes").
Proof.
  split; [discriminate|].
  apply (proj1 (fromPrivateKey_errors (KeyString "12zz") true)). discriminate.
Defined.

(** C4.  [validateAddress s] is true exactly when the length of [s] is
    between 26 and 35 and its first character is [b], [m] or [1]; so a string
    of length 25 or 36 is rejected and one of length 30 that starts with [b]
    is accepted. *)
Theorem validateAddress_spec (s : string) :
  (validateAddress s = true <->
   (26 <= String.length s <= 35)%nat /\
   exists c rest, s = String c rest /\
                  (c = "b"%char \/ c = "m"%char \/ c = "1"%char)) /\
  (String.length s = 25%nat \/ String.length s = 36%nat ->
   validateAddress s = false) /\
  (String.length s = 30%nat -> startsWith s "b" = true ->
   validateAddress s = true).
Proof.
  split; [split|split].
  - intros H. apply validateAddress_true in H as [Hlen Hc].
    split; [exact Hlen|]. now apply starts_with_bm1_true.
  - intros [Hlen Hc]. apply validateAddress_true.
    split; [exact Hlen|]. now apply starts_with_bm1_true.
  - intros Hlen. apply not_true_iff_false. intros H.
    apply validateAddress_true in H. lia.
  - intros Hlen Hb. apply validateAddress_true. split; [lia|].
    apply startsWith_char in Hb as [rest ->]. reflexivity.
Qed.

Lemma validateAddress_spec_witness :
  String.length "bPQYFPE6iQFEfA3MJSRR3WYrczLjWV" = 30%nat /\
  startsWith "bPQYFPE6iQFEfA3MJSRR3WYrczLjWV" "b" = true /\
  validateAddress "bPQYFPE6iQFEfA3MJSRR3WYrczLjWV" = true.
Proof.
  split; [reflexivity|]. split; [reflexivity|].
  apply (proj2 (proj2 (validateAddress_spec "bPQYFPE6iQFEfA3MJSRR3WYrczLjWV")));
    reflexivity.
Defined.

(** C5.  For every valid private key, the mainnet address of its public key
    begins with [b] and the testnet address begins with [m] or [n]. *)
Theorem address_prefix (sk : bytes) :
  Secp256k1.privateKeyVerify sk = true ->
  exists pk mainnet testnet,
    getPublicKey sk = Ok pk /\
    createAddress pk false = Ok mainnet /\
    createAddress pk true = Ok testnet /\
    startsWith mainnet "b" = true /\
    (startsWith testnet "m" = true \/ startsWith testnet "n" = true).
Proof.
  intros Hv. rewrite (getPublicKey_valid _ Hv).
  set (pk := Secp256k1.serialize _).
  destruct (createAddress_mainnet_head pk) as (a & Ha & Hb).
  destruct (createAddress_testnet_head pk) as (t & Ht & Hmn).
  exists pk, a, t. auto.
Qed.

Lemma address_prefix_witness :
  Secp256k1.privateKeyVerify (be_bytes 32 1) = true /\
  exists pk mainnet testnet,
    getPublicKey (be_bytes 32 1) = Ok pk /\
    createAddress pk false = Ok mainnet /\
    createAddress pk true = Ok testnet /\
    startsWith mainnet "b" = true /\
    (startsWith testnet "m" = true \/ startsWith testnet "n" = true).
Proof.
  split; [vm_compute; reflexivity|].
  apply (address_prefix (be_bytes 32 1)). vm_compute; reflexivity.
Defined.

(** C6.  The private key 12 has a testnet address that begins with [n], and
    [validateAddress] rejects it; indeed it rejects every string that begins
    with [n], whatever its length. *)
Theorem validateAddress_rejects_testnet_n :
  (exists sk pk a,
     Secp256k1.privateKeyVerify sk = true /\
     getPublicKey sk = Ok pk /\
     List.length pk = 33%nat /\
     createAddress pk true = Ok a /\
     startsWith a "n" = true /\
     validateAddress a = false) /\
  (forall rest, validateAddress (String "n" rest) = false).
Proof.
  split.
  - exists (be_bytes 32 12),
      (Hex.from "03d01115d548e7561b15c38f004d734633687cf4419620095bc5b0f47070afe85a"),
      "n1fprNxRhWrpkJ34A4cNsSZbHsnzhob2KL".
    repeat (split; [vm_compute; reflexivity|]). vm_compute; reflexivity.
  - intros rest. apply not_true_iff_false. intros H.
    apply validateAddress_true in H as [_ H]. discriminate.
Qed.

(** C7.  For every valid private key [k] and network, [fromPrivateKey] on
    the hex text of [k] returns the same wallet, hence the same address, as
    [fromPrivateKey] on the bytes of [k] and as [generateWallet] in any run
    whose accepted draw is [k]. *)
Theorem fromPrivateKey_roundtrip (k : bytes) (testnet : bool) :
  Secp256k1.privateKeyVerify k = true ->
  exists wallet,
    fromPrivateKey (KeyString (Hex.toString k)) testnet = Ok wallet /\
    fromPrivateKey (KeyBuffer k) testnet = Ok wallet /\
    privateKey wallet = Hex.toString k /\
    forall fuel w w',
      generatePrivateKey fuel w = Some (k, w') ->
      generateWallet fuel testnet w = Some (Ok wallet, w').
Proof.
  intros Hv.
  destruct (wallet_of_valid_key k testnet Hv) as (pk & a & _ & _ & H).
  exists (mkWallet (Hex.toString k) (Uint8Array_toString pk) a (network_name testnet)).
  split; [|split; [|split]].
  - rewrite (fromPrivateKey_valid (KeyString (Hex.toString k)) testnet k);
      [exact H| |exact Hv].
    now rewrite Hex_from_toString.
  - now rewrite (fromPrivateKey_valid (KeyBuffer k) testnet k eq_refl Hv).
  - reflexivity.
  - intros fuel w w' Hg.
    now rewrite (generateWallet_selected fuel testnet w w' k Hg), H.
Qed.

Lemma fromPrivateKey_roundtrip_witness :
  Secp256k1.privateKeyVerify (be_bytes 32 1) = true /\
  exists wallet,
    fromPrivateKey (KeyString (Hex.toString (be_bytes 32 1))) true = Ok wallet /\
    fromPrivateKey (KeyBuffer (be_bytes 32 1)) true = Ok wallet /\
    privateKey wallet = Hex.toString (be_bytes 32 1) /\
    forall fuel w w',
      generatePrivateKey fuel w = Some (be_bytes 32 1, w') ->
      generateWallet fuel true w = Some (Ok wallet, w').
Proof.
  split; [vm_compute; reflexivity|].
  apply (fromPrivateKey_roundtrip (be_bytes 32 1) true). vm_compute; reflexivity.
Defined.

(** C8.  For every valid private key [k] and network the pipeline
    [createAddress(getPublicKey(k), n)] yields one address, and every run of
    [generateWallet], whatever the state of the random source, that selects
    [k], and every call of [fromPrivateKey] whose wallet carries [k], reports
    exactly that address: nothing after the choice of the key depends on the
    source. *)
Theorem address_deterministic (k : bytes) (testnet : bool) :
  Secp256k1.privateKeyVerify k = true ->
  exists a,
    (let* pk := getPublicKey k in createAddress pk testnet) = Ok a /\
    (forall fuel w w' wallet,
       generateWallet fuel testnet w = Some (Ok wallet, w') ->
       privateKey wallet = Hex.toString k ->
       address wallet = a) /\
    (forall input wallet,
       fromPrivateKey input testnet = Ok wallet ->
       privateKey wallet = Hex.toString k ->
       address wallet = a).
Proof.
  intros Hv.
  destruct (wallet_of_valid_key k testnet Hv) as (pk & a & Hpk & Ha & H).
  exists a. split; [|split].
  - rewrite Hpk. cbn [bind]. exact Ha.
  - intros fuel w w' wallet Hg Hkey.
    destruct (generateWallet_inv fuel testnet w w' _ Hg) as (k' & Hk' & Hr).
    destruct (generatePrivateKey_sound fuel w w' k' Hk') as [Hv' _].
    destruct (wallet_of_valid_key k' testnet Hv') as (pk' & a' & Hpk' & Ha' & H').
    rewrite H' in Hr. injection Hr as ->. cbn [privateKey] in Hkey.
    apply Hex_toString_inj in Hkey. subst k'. cbn [address].
    rewrite Hpk in Hpk'. injection Hpk' as <-.
    rewrite Ha in Ha'. now injection Ha' as <-.
  - intros input wallet Hf Hkey.
    set (k' := match input with KeyString s => Hex.from s | KeyBuffer b => b end).
    destruct (Secp256k1.privateKeyVerify k') eqn:Hv'.
    + rewrite (fromPrivateKey_valid input testnet k' eq_refl Hv') in Hf.
      destruct (wallet_of_valid_key k' testnet Hv') as (pk' & a' & Hpk' & Ha' & H').
      rewrite H' in Hf. injection Hf as <-. cbn [privateKey] in Hkey.
      apply Hex_toString_inj in Hkey. subst k'. rewrite Hkey in *. cbn [address].
      rewrite Hpk in Hpk'. injection Hpk' as <-.
      rewrite Ha in Ha'. now injection Ha' as <-.
    + exfalso. unfold fromPrivateKey in Hf. fold k' in Hf.
      destruct (Nat.eqb_spec (List.length k') 32) as [Hlen'|Hlen'];
        cbn [negb] in Hf; [|discriminate Hf].
      rewrite (getPublicKey_invalid _ Hlen' Hv') in Hf. discriminate Hf.
Qed.

Lemma address_deterministic_witness :
  Secp256k1.privateKeyVerify (be_bytes 32 1) = true /\
  exists a,
    (let* pk := getPublicKey (be_bytes 32 1) in createAddress pk false) = Ok a /\
    (forall fuel w w' wallet,
       generateWallet fuel false w = Some (Ok wallet, w') ->
       privateKey wallet = Hex.toString (be_bytes 32 1) ->
       address wallet = a) /\
    (forall input wallet,
       fromPrivateKey input false = Ok wallet ->
       privateKey wallet = Hex.toString (be_bytes 32 1) ->
       address wallet = a).
Proof.
  split; [vm_compute; reflexivity|].
  apply (address_deterministic (be_bytes 32 1) false). vm_compute; reflexivity.
Defined.

(** C9.  For a 32-byte key, [getPublicKey] throws
    [Error('Invalid private key')] exactly when the key, read as a big-endian
    number, is zero or not below the group order, and it throws nothing else;
    for every other key it returns the 33-byte compressed encoding of the
    multiple of the generator. *)
Theorem getPublicKey_spec (sk : bytes) :
  List.length sk = 32%nat ->
  (getPublicKey sk = Throw (Error "Invalid private key") <->
   be_value sk = 0 \/ Secp256k1.n <= be_value sk) /\
  (forall e, getPublicKey sk = Throw e -> e = Error "Invalid private key") /\
  (0 < be_value sk < Secp256k1.n ->
   exists pk,
     getPublicKey sk = Ok pk /\
     pk = Secp256k1.serialize
            (Secp256k1.mul (Z.to_pos (be_value sk)) Secp256k1.G) /\
     List.length pk = 33%nat).
Proof.
  intros Hlen.
  destruct (Secp256k1.privateKeyVerify sk) eqn:Hv.
  - pose proof (proj1 (privateKeyVerify_true sk) Hv) as [_ Hr].
    rewrite (getPublicKey_valid _ Hv).
    split; [|split].
    + split; [discriminate|lia].
    + discriminate.
    + intros _. eexists. split; [reflexivity|]. split; [reflexivity|].
      apply serialize_length.
  - pose proof (proj1 (privateKeyVerify_false sk Hlen) Hv) as Hr.
    rewrite (getPublicKey_invalid _ Hlen Hv).
    split; [|split].
    + tauto.
    + intros e H. now injection H as <-.
    + lia.
Qed.

Lemma getPublicKey_spec_witness :
  List.length (be_bytes 32 2) = 32%nat /\
  0 < be_value (be_bytes 32 2) < Secp256k1.n /\
  exists pk,
    getPublicKey (be_bytes 32 2) = Ok pk /\
    pk = Secp256k1.serialize
           (Secp256k1.mul (Z.to_pos (be_value (be_bytes 32 2))) Secp256k1.G) /\
    List.length pk = 33%nat.
Proof.
  split; [reflexivity|]. split; [vm_compute; split; reflexivity|].
  apply (proj2 (proj2 (getPublicKey_spec (be_bytes 32 2) eq_refl))).
  vm_compute; split; reflexivity.
Defined.

(** C10.  [hash160] returns 20 bytes and [doubleSha256] 32 bytes on every
    buffer; a key returned by [generatePrivateKey] has 32 bytes, and the loop
    does return one once the random source delivers an acceptable block;
    [getPublicKey] returns 33 bytes on every valid key. *)
Theorem output_lengths :
  (forall data, List.length (hash160 data) = 20%nat) /\
  (forall data, List.length (doubleSha256 data) = 32%nat) /\
  (forall fuel w k w',
     generatePrivateKey fuel w = Some (k, w') -> List.length k = 32%nat) /\
  (forall w j fuel,
     Secp256k1.privateKeyVerify (draw w j) = true -> (j < fuel)%nat ->
     exists k w', generatePrivateKey fuel w = Some (k, w') /\
                  List.length k = 32%nat) /\
  (forall sk,
     Secp256k1.privateKeyVerify sk = true ->
     exists pk, getPublicKey sk = Ok pk /\ List.length pk = 33%nat).
Proof.
  assert (Hgen : forall fuel w k w',
             generatePrivateKey fuel w = Some (k, w') -> List.length k = 32%nat).
  { intros fuel w k w' H.
    destruct (generatePrivateKey_sound fuel w w' k H) as [Hv _].
    now apply privateKeyVerify_true in Hv. }
  split; [exact hash160_length|].
  split; [exact doubleSha256_length|].
  split; [exact Hgen|].
  split.
  - intros w j fuel Hv Hfuel.
    destruct (generatePrivateKey_terminates w j fuel Hv Hfuel) as (k & w' & H).
    exists k, w'. split; [exact H|]. exact (Hgen _ _ _ _ H).
  - intros sk Hv. rewrite (getPublicKey_valid _ Hv).
    eexists. split; [reflexivity|]. apply serialize_length.
Qed.

Lemma output_lengths_witness :
  Secp256k1.privateKeyVerify
    (draw (mkWorld (fun i => if (i <? 32)%nat then x00 else x01) 0) 1) = true /\
  (1 < 2)%nat /\
  exists k w',
    generatePrivateKey 2 (mkWorld (fun i => if (i <? 32)%nat then x00 else x01) 0) =
      Some (k, w') /\
    List.length k = 32%nat.
Proof.
  split; [vm_compute; reflexivity|]. split; [lia|].
  apply (proj1 (proj2 (proj2 (proj2 output_lengths)))
           (mkWorld (fun i => if (i <? 32)%nat then x00 else x01) 0) 1%nat 2%nat).
  - vm_compute; reflexivity.
  - lia.
Defined.

(* ===================================================================== *)
(** * Part IV: further properties of the code                             *)
(* ===================================================================== *)

(** ** The encoder is lossless *)

(** X1.  Whenever [base58Encode] returns a text, the base-58 value of the
    text is the big-endian value of the buffer (so it is below 256 to the
    length of the buffer): the number written by the [while] loop can be read
    back, and the ['1'] written for leading zero bytes do not change it. *)
Theorem base58Encode_value (data : bytes) (s : string) :
  base58Encode data = Ok s ->
  base58_value s = be_value data /\
  0 <= base58_value s < 256 ^ Z.of_nat (List.length data).
Proof.
  intros H. rewrite (base58_value_of_encoding data s H).
  split; [reflexivity|apply be_value_range].
Qed.

Lemma base58Encode_value_witness :
  base58Encode [x00; x01; x02; x03; x04] = Ok "12VfUX" /\
  base58_value "12VfUX" = be_value [x00; x01; x02; x03; x04] /\
  0 <= base58_value "12VfUX" <
    256 ^ Z.of_nat (List.length [x00; x01; x02; x03; x04]).
Proof.
  split; [vm_compute; reflexivity|].
  apply (base58Encode_value [x00; x01; x02; x03; x04] "12VfUX").
  vm_compute; reflexivity.
Defined.

(** ** The symbols of the output *)

(** X2.  Every character of a text that [base58Encode] returns is one of
    the 58 symbols of the alphabet: the remainder used as an index is always
    in range, so no [undefined] is ever concatenated. *)
Theorem base58Encode_alphabet (data : bytes) (s : string) :
  base58Encode data = Ok s ->
  forall i c, String.get i s = Some c ->
              exists j, String.get j alphabet = Some c.
Proof.
  destruct data as [|b rest]; [discriminate|].
  rewrite base58Encode_nonempty. intros H. apply Ok_inj in H. subst s.
  apply all_in_alphabet_get, base58_leading_zeros_alphabet, base58_digits_alphabet.
  - apply be_value_range.
  - reflexivity.
Qed.

Lemma base58Encode_alphabet_witness :
  base58Encode [xff; x00; x10] = Ok "2Ueoh" /\
  forall i c, String.get i "2Ueoh" = Some c ->
              exists j, String.get j alphabet = Some c.
Proof.
  split; [vm_compute; reflexivity|].
  apply (base58Encode_alphabet [xff; x00; x10] "2Ueoh"). vm_compute; reflexivity.
Defined.

(** ** Zero bytes in front *)

Lemma Z_of_byte_inj (a b : byte) : Z_of_byte a = Z_of_byte b -> a = b.
Proof.
  intros H. rewrite <- (byte_of_Z_of_byte a), <- (byte_of_Z_of_byte b), H.
  reflexivity.
Qed.

Lemma Z_of_byte_nonzero (b : byte) : b <> x00 -> 1 <= Z_of_byte b.
Proof.
  intros H. pose proof (Z_of_byte_range b).
  destruct (Z.eq_dec (Z_of_byte b) 0) as [E|E]; [|lia].
  now apply Z_of_byte_zero in E.
Qed.

Lemma be_value_nonzero_head (b : byte) (rest : bytes) :
  b <> x00 -> 256 ^ Z.of_nat (List.length rest) <= be_value (b :: rest).
Proof.
  intros H. rewrite be_value_cons.
  pose proof (Z_of_byte_nonzero b H). pose proof (be_value_range rest).
  assert (0 < 256 ^ Z.of_nat (List.length rest)) by (apply Z.pow_pos_nonneg; lia).
  nia.
Qed.

Lemma leading_zeros_split (data : bytes) :
  data = repeat x00 (leading_zero_count data) ++ strip_leading_zeros data.
Proof.
  induction data as [|b rest IH]; [reflexivity|].
  destruct b; try reflexivity.
  cbn [leading_zero_count strip_leading_zeros repeat app]. now rewrite <- IH.
Qed.

Lemma strip_leading_zeros_head (data : bytes) :
  strip_leading_zeros data = [] \/
  exists b rest, strip_leading_zeros data = b :: rest /\ b <> x00.
Proof.
  induction data as [|b rest IH]; [now left|].
  destruct b; try (right; eexists; eexists; split; [reflexivity|discriminate]).
  exact IH.
Qed.

Lemma be_value_strip (data : bytes) :
  be_value (strip_leading_zeros data) = be_value data.
Proof.
  induction data as [|b rest IH]; [reflexivity|].
  destruct b; try reflexivity.
  cbn [strip_leading_zeros]. rewrite IH, be_value_cons.
  change (Z_of_byte x00) with 0. lia.
Qed.

Lemma base58_leading_zeros_count (data : bytes) (result : string) :
  base58_leading_zeros data result =
  (repeat_char "1" (leading_zero_count data) ++ result)%string.
Proof.
  revert result. induction data as [|b rest IH]; intros result; [reflexivity|].
  destruct b; try reflexivity.
  cbn [base58_leading_zeros leading_zero_count repeat_char String.append].
  rewrite IH. apply repeat_char_shift.
Qed.

Lemma leading_zero_count_prefix (z : nat) (b : byte) (rest : bytes) :
  b <> x00 ->
  leading_zero_count (repeat x00 z ++ b :: rest) = z /\
  strip_leading_zeros (repeat x00 z ++ b :: rest) = b :: rest.
Proof.
  intros Hb. induction z as [|z [IH1 IH2]].
  - cbn [repeat app]. destruct b; try (split; reflexivity). congruence.
  - cbn [repeat app leading_zero_count strip_leading_zeros].
    now rewrite IH1, IH2.
Qed.

(** The top digit of a positive number is not the symbol of zero. *)
Lemma base58_digits_head_nonzero (num : Z) :
  0 <= num -> 0 < num ->
  forall result,
    exists c tail, base58_digits num result = String c tail /\ c <> "1"%char.
Proof.
  intros Hnum. pattern num. apply Zlt_0_ind; [|exact Hnum].
  clear num Hnum. intros num IH _ Hpos result.
  rewrite base58_digits_step by lia.
  pose proof (Z.mod_pos_bound num 58 ltac:(lia)) as Hm.
  destruct (prepend_symbol_value (num mod 58) result Hm) as (c & -> & Hc).
  destruct (Z.eq_dec (num / 58) 0) as [E|E].
  - rewrite E, base58_digits_done by lia.
    exists c, result. split; [reflexivity|]. intros ->.
    change (symbol_value "1") with 0 in Hc.
    pose proof (Z.div_mod num 58 ltac:(lia)). lia.
  - assert (Hq : 0 <= num / 58 < num).
    { split; [apply Z.div_pos; lia|apply Z.div_lt; lia]. }
    apply (IH (num / 58) Hq). lia.
Qed.

Lemma startsWith_cons_false (c d : ascii) (tail : string) :
  c <> d -> startsWith (String c tail) (String d "") = false.
Proof.
  intros H. unfold startsWith. cbn [String.prefix].
  destruct (ascii_dec d c) as [E|E]; [congruence|reflexivity].
Qed.

(** The text written for a buffer: one ['1'] per leading zero byte, then the
    digits of the value, which do not begin with ['1']. *)
Lemma base58Encode_canonical (data : bytes) (s : string) :
  base58Encode data = Ok s ->
  exists digits,
    s = (repeat_char "1" (leading_zero_count data) ++ digits)%string /\
    digits = base58_digits (be_value (strip_leading_zeros data)) "" /\
    startsWith digits "1" = false /\
    (digits = "" <-> strip_leading_zeros data = []).
Proof.
  destruct data as [|b rest]; [discriminate|].
  rewrite base58Encode_nonempty. intros H. apply Ok_inj in H. subst s.
  rewrite base58_leading_zeros_count, be_value_strip.
  eexists. split; [reflexivity|]. split; [reflexivity|].
  rewrite <- be_value_strip.
  destruct (strip_leading_zeros_head (b :: rest)) as [E|(b' & rest' & E & Hb)];
    rewrite E.
  - change (be_value []) with 0. rewrite base58_digits_done by lia.
    split; [reflexivity|tauto].
  - pose proof (be_value_nonzero_head b' rest' Hb) as Hlow.
    assert (Hpos : 0 < be_value (b' :: rest')).
    { assert (0 < 256 ^ Z.of_nat (List.length rest')) by (apply Z.pow_pos_nonneg; lia).
      lia. }
    destruct (base58_digits_head_nonzero (be_value (b' :: rest'))
                ltac:(lia) Hpos "") as (c & tail & -> & Hc).
    split; [now apply startsWith_cons_false|].
    split; discriminate.
Qed.

(** X3.  Leading zero bytes in general: for a buffer that begins with a
    nonzero byte the encoding is not empty and does not begin with ['1'], and
    putting [z] zero bytes in front of the buffer puts exactly [z] letters
    ['1'] in front of its encoding. *)
Theorem base58Encode_zero_prefix (z : nat) (b : byte) (rest : bytes) :
  b <> x00 ->
  exists s,
    base58Encode (b :: rest) = Ok s /\
    s <> "" /\
    startsWith s "1" = false /\
    base58Encode (repeat x00 z ++ b :: rest) = Ok (repeat_char "1" z ++ s)%string.
Proof.
  intros Hb.
  pose proof (be_value_nonzero_head b rest Hb) as Hlow.
  assert (Hpos : 0 < be_value (b :: rest)).
  { assert (0 < 256 ^ Z.of_nat (List.length rest)) by (apply Z.pow_pos_nonneg; lia).
    lia. }
  destruct (base58_digits_head_nonzero (be_value (b :: rest)) ltac:(lia) Hpos "")
    as (c & tail & Hd & Hc).
  exists (String c tail).
  split; [|split; [discriminate|split; [now apply startsWith_cons_false|]]].
  - rewrite base58Encode_nonempty, base58_leading_zeros_none by exact Hb.
    now rewrite Hd.
  - destruct (leading_zero_count_prefix z b rest Hb) as [Hz Hs].
    destruct (repeat x00 z ++ b :: rest) as [|b0 rest0] eqn:E.
    + destruct z; discriminate.
    + rewrite base58Encode_nonempty, base58_leading_zeros_count, Hz.
      now rewrite <- be_value_strip, Hs, Hd.
Qed.

Lemma base58Encode_zero_prefix_witness :
  x01 <> x00 /\
  exists s,
    base58Encode [x01; x02] = Ok s /\
    s <> "" /\
    startsWith s "1" = false /\
    base58Encode (repeat x00 3 ++ [x01; x02]) = Ok (repeat_char "1" 3 ++ s)%string.
Proof.
  split; [discriminate|].
  apply (base58Encode_zero_prefix 3 x01 [x02]). discriminate.
Defined.

(** ** Different buffers, different texts *)

Lemma be_value_inj_same_length (l1 l2 : bytes) :
  List.length l1 = List.length l2 -> be_value l1 = be_value l2 -> l1 = l2.
Proof.
  revert l2. induction l1 as [|a r1 IH]; intros [|b r2] Hlen Hval;
    try discriminate; [reflexivity|].
  cbn [List.length] in Hlen. injection Hlen as Hlen.
  rewrite !be_value_cons, <- Hlen in Hval.
  pose proof (be_value_range r1) as H1. pose proof (be_value_range r2) as H2.
  rewrite <- Hlen in H2.
  set (P := 256 ^ Z.of_nat (List.length r1)) in *.
  assert (HP : 0 < P) by (apply Z.pow_pos_nonneg; lia).
  destruct (Z.div_mod_unique P (Z_of_byte a) (Z_of_byte b) (be_value r1) (be_value r2))
    as [Hq Hr]; [lia|lia|lia|].
  apply Z_of_byte_inj in Hq. subst b. f_equal. now apply IH.
Qed.

(** Two buffers without leading zero bytes that denote the same number are
    the same buffer. *)
Lemma be_value_inj_stripped (l1 l2 : bytes) :
  strip_leading_zeros l1 = l1 -> strip_leading_zeros l2 = l2 ->
  be_value l1 = be_value l2 -> l1 = l2.
Proof.
  intros S1 S2 Hval.
  assert (Hlow : forall l, strip_leading_zeros l = l -> l <> [] ->
                           256 ^ (Z.of_nat (List.length l) - 1) <= be_value l).
  { intros l Sl Hne.
    destruct (strip_leading_zeros_head l) as [E|(b & rest & E & Hb)];
      rewrite Sl in E; [contradiction|]. subst l.
    cbn [List.length]. rewrite Nat2Z.inj_succ.
    replace (Z.succ (Z.of_nat (List.length rest)) - 1)
      with (Z.of_nat (List.length rest)) by lia.
    now apply be_value_nonzero_head. }
  assert (Hlen : forall a b, strip_leading_zeros a = a -> strip_leading_zeros b = b ->
                             be_value a = be_value b ->
                             (List.length a <= List.length b)%nat).
  { intros a b Sa Sb Hab.
    destruct (Nat.le_gt_cases (List.length a) (List.length b)) as [H|H]; [exact H|].
    exfalso.
    assert (Hne : a <> []) by (intros ->; cbn in H; lia).
    pose proof (Hlow a Sa Hne) as Ha. pose proof (be_value_range b) as Hb.
    assert (256 ^ Z.of_nat (List.length b) <= 256 ^ (Z.of_nat (List.length a) - 1))
      by (apply Z.pow_le_mono_r; lia).
    lia. }
  apply be_value_inj_same_length; [|exact Hval].
  apply Nat.le_antisymm; [apply Hlen|apply Hlen]; auto.
Qed.

Lemma strip_leading_zeros_idem (data : bytes) :
  strip_leading_zeros (strip_leading_zeros data) = strip_leading_zeros data.
Proof.
  induction data as [|b rest IH]; [reflexivity|].
  destruct b; try reflexivity. exact IH.
Qed.

(** A run of ['1'] followed by a text that does not begin with ['1'] is cut
    in one way only. *)
Lemma ones_prefix_unique (z1 z2 : nat) (d1 d2 : string) :
  startsWith d1 "1" = false -> startsWith d2 "1" = false ->
  (repeat_char "1" z1 ++ d1)%string = (repeat_char "1" z2 ++ d2)%string ->
  z1 = z2 /\ d1 = d2.
Proof.
  intros H1 H2. revert z2.
  induction z1 as [|z1 IH]; intros [|z2] E; cbn [repeat_char String.append] in E.
  - now split.
  - subst d1. rewrite startsWith_head in H1. discriminate.
  - subst d2. rewrite startsWith_head in H2. discriminate.
  - injection E as E. destruct (IH z2 E) as [-> ->]. now split.
Qed.

Lemma base58Encode_injective (a b : bytes) (s : string) :
  base58Encode a = Ok s -> base58Encode b = Ok s -> a = b.
Proof.
  intros Ha Hb.
  destruct (base58Encode_canonical a s Ha) as (da & Hsa & Hda & Hna & _).
  destruct (base58Encode_canonical b s Hb) as (db & Hsb & Hdb & Hnb & _).
  rewrite Hsa in Hsb.
  destruct (ones_prefix_unique _ _ _ _ Hna Hnb Hsb) as [Hz Hd].
  assert (Hv : be_value (strip_leading_zeros a) = be_value (strip_leading_zeros b)).
  { pose proof (be_value_range (strip_leading_zeros a)) as Ra.
    pose proof (be_value_range (strip_leading_zeros b)) as Rb.
    destruct (base58_digits_value _ (proj1 Ra) "") as [_ Va].
    destruct (base58_digits_value _ (proj1 Rb) "") as [_ Vb].
    rewrite <- Hda in Va. rewrite <- Hdb in Vb. rewrite Hd in Va.
    rewrite Va in Vb. cbn [String.length] in Vb.
    change (58 ^ Z.of_nat 0) with 1 in Vb. lia. }
  apply be_value_inj_stripped in Hv; try apply strip_leading_zeros_idem.
  rewrite (leading_zeros_split a), (leading_zeros_split b), Hz, Hv.
  reflexivity.
Qed.

(** X4.  [base58Encode] is lossless: two buffers with the same encoding are
    the same buffer, whatever their lengths and however many zero bytes they
    begin with. *)
Theorem base58Encode_lossless (a b : bytes) (s : string) :
  base58Encode a = Ok s -> base58Encode b = Ok s ->
  a = b /\ List.length a = List.length b /\
  leading_zero_count a = leading_zero_count b.
Proof.
  intros Ha Hb. rewrite (base58Encode_injective a b s Ha Hb). auto.
Qed.

Lemma base58Encode_lossless_witness :
  base58Encode [x00; x01; x02; x03; x04] = Ok "12VfUX" /\
  base58Encode (x00 :: be_bytes 4 0x01020304) = Ok "12VfUX" /\
  [x00; x01; x02; x03; x04] = x00 :: be_bytes 4 0x01020304 /\
  List.length [x00; x01; x02; x03; x04] = List.length (x00 :: be_bytes 4 0x01020304) /\
  leading_zero_count [x00; x01; x02; x03; x04] =
  leading_zero_count (x00 :: be_bytes 4 0x01020304).
Proof.
  split; [vm_compute; reflexivity|]. split; [vm_compute; reflexivity|].
  apply (base58Encode_lossless [x00; x01; x02; x03; x04]
           (x00 :: be_bytes 4 0x01020304) "12VfUX"); vm_compute; reflexivity.
Defined.

(** X5.  Two calls of [createAddress] return the same address only for the
    same network and public keys with the same [hash160]: the version byte
    and the hash can be read off the address. *)
Theorem createAddress_injective (pk1 pk2 : bytes) (t1 t2 : bool) (a : string) :
  createAddress pk1 t1 = Ok a -> createAddress pk2 t2 = Ok a ->
  t1 = t2 /\ hash160 pk1 = hash160 pk2.
Proof.
  rewrite !createAddress_payload. intros H1 H2.
  pose proof (base58Encode_injective _ _ _ H1 H2) as E.
  pose proof (f_equal (hd x00) E) as Ev. pose proof (f_equal (@tl byte) E) as Et.
  cbn [hd tl] in Ev, Et. clear E H1 H2.
  assert (Ht : t1 = t2).
  { clear Et. destruct t1, t2; try reflexivity; discriminate Ev. }
  split; [exact Ht|].
  apply (f_equal (firstn 20)) in Et.
  rewrite !firstn_app, !hash160_length in Et.
  rewrite !firstn_all2 in Et by (rewrite hash160_length; lia).
  change (20 - 20)%nat with 0%nat in Et. cbn [firstn] in Et.
  now rewrite !app_nil_r in Et.
Qed.

Lemma createAddress_injective_witness :
  createAddress [x02] true = Ok "mviZBGSXEhfY6CoPm5HDE1sxHx2uqbFPT8" /\
  createAddress [x02] true = Ok "mviZBGSXEhfY6CoPm5HDE1sxHx2uqbFPT8" /\
  true = true /\ hash160 [x02] = hash160 [x02].
Proof.
  split; [vm_compute; reflexivity|]. split; [vm_compute; reflexivity|].
  apply (createAddress_injective [x02] [x02] true true
           "mviZBGSXEhfY6CoPm5HDE1sxHx2uqbFPT8"); vm_compute; reflexivity.
Defined.

(** ** Addresses and the validator *)

Lemma validateAddress_of_createAddress_mainnet (pk : bytes) :
  exists a, createAddress pk false = Ok a /\ validateAddress a = true.
Proof.
  destruct (createAddress_mainnet_head pk) as (a & Ha & Hb).
  pose proof (createAddress_length pk false a Ha) as Hlen.
  exists a. split; [exact Ha|].
  apply validateAddress_true. split; [lia|].
  apply startsWith_char in Hb as [rest ->]. reflexivity.
Qed.

(** X6.  Every address that [createAddress] returns has 34 characters.  So
    [validateAddress] accepts every mainnet address, and accepts a testnet
    address exactly when it begins with [m]. *)
Theorem validateAddress_of_createAddress (pk : bytes) :
  (exists a, createAddress pk false = Ok a /\
             String.length a = 34%nat /\
             validateAddress a = true) /\
  (exists a, createAddress pk true = Ok a /\
             String.length a = 34%nat /\
             (validateAddress a = true <-> startsWith a "m" = true)).
Proof.
  split.
  - destruct (createAddress_mainnet_head pk) as (a & Ha & Hb).
    pose proof (createAddress_length pk false a Ha) as Hlen.
    exists a. split; [exact Ha|]. split; [exact Hlen|].
    apply validateAddress_true. split; [lia|].
    apply startsWith_char in Hb as [rest ->]. reflexivity.
  - destruct (createAddress_testnet_head pk) as (a & Ha & Hmn).
    pose proof (createAddress_length pk true a Ha) as Hlen.
    exists a. split; [exact Ha|]. split; [exact Hlen|].
    rewrite validateAddress_true.
    destruct Hmn as [Hm|Hn].
    + rewrite Hm. apply startsWith_char in Hm as [rest ->].
      split; [reflexivity|]. intros _. split; [lia|reflexivity].
    + apply startsWith_char in Hn as [rest ->].
      split; [intros [_ H]; discriminate H|intros H; discriminate H].
Qed.

(** ** The key loop *)

Lemma randomBytes_world (w : World) :
  snd (randomBytes 32 w) = mkWorld (entropy w) (consumed w + 32).
Proof. reflexivity. Qed.

Lemma draw_shift (w : World) (j : nat) :
  draw (mkWorld (entropy w) (consumed w + 32)) j = draw w (S j).
Proof. now rewrite draw_next, randomBytes_world. Qed.

Lemma generatePrivateKey_first (w : World) (j : nat) :
  Secp256k1.privateKeyVerify (draw w j) = true ->
  (forall i, (i < j)%nat -> Secp256k1.privateKeyVerify (draw w i) = false) ->
  forall fuel, (j < fuel)%nat ->
    generatePrivateKey fuel w =
    Some (draw w j, mkWorld (entropy w) (consumed w + 32 * S j)).
Proof.
  revert w. induction j as [|j IH]; intros w Hv Hbefore fuel Hfuel;
    (destruct fuel as [|fuel]; [lia|]); rewrite generatePrivateKey_unfold.
  - rewrite Hv, randomBytes_world.
    now replace (consumed w + 32 * 1)%nat with (consumed w + 32)%nat by lia.
  - rewrite (Hbefore 0%nat) by lia. rewrite randomBytes_world.
    rewrite (IH (mkWorld (entropy w) (consumed w + 32))).
    + rewrite draw_shift. cbn [entropy consumed].
      now replace (consumed w + 32 + 32 * S j)%nat
        with (consumed w + 32 * S (S j))%nat by lia.
    + now rewrite draw_shift.
    + intros i Hi. rewrite draw_shift. apply Hbefore. lia.
    + lia.
Qed.

Lemma generatePrivateKey_none (fuel : nat) (w : World) :
  generatePrivateKey fuel w = None <->
  forall i, (i < fuel)%nat -> Secp256k1.privateKeyVerify (draw w i) = false.
Proof.
  revert w. induction fuel as [|fuel IH]; intros w.
  - split; [intros _ i Hi; lia|reflexivity].
  - rewrite generatePrivateKey_unfold.
    destruct (Secp256k1.privateKeyVerify (draw w 0)) eqn:Hv.
    + split; [discriminate|]. intros H. rewrite (H 0%nat) in Hv by lia. discriminate Hv.
    + rewrite randomBytes_world, IH. split.
      * intros H [|i] Hi; [exact Hv|]. rewrite <- draw_shift. apply H. lia.
      * intros H i Hi. rewrite draw_shift. apply H. lia.
Qed.

(** X7.  [generatePrivateKey] returns the first block of the random source
    that passes [privateKeyVerify], and has then consumed exactly the blocks
    up to and including it; rejected blocks are discarded whole. *)
Theorem generatePrivateKey_first_valid (fuel : nat) (w w' : World) (k : bytes) :
  generatePrivateKey fuel w = Some (k, w') <->
  exists j,
    (j < fuel)%nat /\
    k = draw w j /\
    Secp256k1.privateKeyVerify (draw w j) = true /\
    (forall i, (i < j)%nat -> Secp256k1.privateKeyVerify (draw w i) = false) /\
    w' = mkWorld (entropy w) (consumed w + 32 * S j).
Proof.
  split.
  - intros H.
    destruct (generatePrivateKey_sound fuel w w' k H) as (Hv & j & Hj & Hk & Hbefore).
    exists j. subst k.
    rewrite (generatePrivateKey_first w j Hv Hbefore fuel Hj) in H.
    apply (f_equal (fun r => match r with Some (_, x) => x | None => w end)) in H.
    split; [exact Hj|]. split; [reflexivity|]. split; [exact Hv|].
    split; [exact Hbefore|]. symmetry. exact H.
  - intros (j & Hj & -> & Hv & Hbefore & ->).
    now apply generatePrivateKey_first.
Qed.

(** X8.  The bound on the number of draws only decides whether the loop is
    followed to its end: a result obtained within some bound is the result
    within every larger bound, and the loop is still running after [fuel]
    draws exactly when all of them were rejected. *)
Theorem generatePrivateKey_fuel (fuel fuel' : nat) (w : World) :
  (fuel <= fuel')%nat ->
  (forall r, generatePrivateKey fuel w = Some r ->
             generatePrivateKey fuel' w = Some r) /\
  (generatePrivateKey fuel w = None <->
   forall i, (i < fuel)%nat -> Secp256k1.privateKeyVerify (draw w i) = false).
Proof.
  intros Hle. split; [|apply generatePrivateKey_none].
  intros [k w'] H.
  destruct (generatePrivateKey_sound fuel w w' k H) as (Hv & j & Hj & Hk & Hbefore).
  subst k.
  rewrite (generatePrivateKey_first w j Hv Hbefore fuel Hj) in H.
  rewrite (generatePrivateKey_first w j Hv Hbefore fuel') by lia.
  exact H.
Qed.

Lemma generatePrivateKey_fuel_witness :
  (2 <= 5)%nat /\
  (forall r,
     generatePrivateKey 2 (mkWorld (fun i => if (i <? 32)%nat then x00 else x01) 0) = Some r ->
     generatePrivateKey 5 (mkWorld (fun i => if (i <? 32)%nat then x00 else x01) 0) = Some r) /\
  (generatePrivateKey 2 (mkWorld (fun i => if (i <? 32)%nat then x00 else x01) 0) = None <->
   forall i, (i < 2)%nat ->
     Secp256k1.privateKeyVerify
       (draw (mkWorld (fun i => if (i <? 32)%nat then x00 else x01) 0) i) = false).
Proof.
  split; [lia|].
  apply (generatePrivateKey_fuel 2 5
           (mkWorld (fun i => if (i <? 32)%nat then x00 else x01) 0)). lia.
Defined.

(** ** Wallet records *)

Lemma Hex_toString_length (data : bytes) :
  String.length (Hex.toString data) = (2 * List.length data)%nat.
Proof.
  induction data as [|b rest IH]; [reflexivity|].
  cbn [Hex.toString String.length List.length]. rewrite IH. lia.
Qed.

Lemma Hex_from_toString_app (data : bytes) (s : string) :
  Hex.from (Hex.toString data ++ s)%string = data ++ Hex.from s.
Proof.
  induction data as [|b rest IH]; [reflexivity|].
  destruct (byte_nibbles b) as (Hhi & Hlo & Hsum).
  cbn [Hex.toString String.append Hex.from app].
  rewrite (unhex_digit _ Hhi), (unhex_digit _ Hlo), Hsum, byte_of_Z_of_byte, IH.
  reflexivity.
Qed.

(** What a wallet returned by the two wallet methods is made of. *)
Lemma wallet_shape (k : bytes) (testnet : bool) (wallet : Wallet) :
  Secp256k1.privateKeyVerify k = true ->
  (let* pk := getPublicKey k in
   let* a := createAddress pk testnet in
   Ok (mkWallet (Hex.toString k) (Uint8Array_toString pk) a (network_name testnet))) =
  Ok wallet ->
  privateKey wallet = Hex.toString k /\
  network wallet = network_name testnet /\
  String.length (privateKey wallet) = 64%nat /\
  String.length (address wallet) = 34%nat /\
  (testnet = false -> validateAddress (address wallet) = true).
Proof.
  intros Hv H.
  destruct (wallet_of_valid_key k testnet Hv) as (pk & a & Hpk & Ha & Hw).
  rewrite Hw in H. apply Ok_inj in H. subst wallet.
  cbn [privateKey publicKey address network].
  pose proof (proj1 (privateKeyVerify_true k) Hv) as [Hlen _].
  split; [reflexivity|]. split; [reflexivity|].
  split; [now rewrite Hex_toString_length, Hlen|].
  split; [exact (createAddress_length pk testnet a Ha)|].
  intros ->.
  destruct (validateAddress_of_createAddress_mainnet pk) as (a' & Ha' & Hva).
  rewrite Ha in Ha'. apply Ok_inj in Ha'. now subst a'.
Qed.

Lemma fromPrivateKey_Ok_inv (input : KeyArgument) (testnet : bool) (wallet : Wallet) :
  fromPrivateKey input testnet = Ok wallet ->
  let k := match input with KeyString s => Hex.from s | KeyBuffer b => b end in
  Secp256k1.privateKeyVerify k = true /\
  (let* pk := getPublicKey k in
   let* a := createAddress pk testnet in
   Ok (mkWallet (Hex.toString k) (Uint8Array_toString pk) a (network_name testnet))) =
  Ok wallet.
Proof.
  intros H k.
  destruct (Secp256k1.privateKeyVerify k) eqn:Hv.
  - split; [reflexivity|].
    now rewrite <- (fromPrivateKey_valid input testnet k eq_refl Hv).
  - exfalso. unfold fromPrivateKey in H. fold k in H.
    destruct (Nat.eqb_spec (List.length k) 32) as [Hlen|Hlen];
      cbn [negb] in H; [|discriminate H].
    rewrite (getPublicKey_invalid _ Hlen Hv) in H. discriminate H.
Qed.

(** X9.  [generateWallet] never throws: whenever its key loop ends, the
    result is a wallet, with the network name of the flag, a private key of
    64 hex characters and an address of 34 characters; on mainnet
    [validateAddress] accepts the address. *)
Theorem generateWallet_never_throws
    (fuel : nat) (testnet : bool) (w w' : World) (r : Result Wallet) :
  generateWallet fuel testnet w = Some (r, w') ->
  exists wallet,
    r = Ok wallet /\
    network wallet = (if testnet then "testnet" else "mainnet") /\
    String.length (privateKey wallet) = 64%nat /\
    String.length (address wallet) = 34%nat /\
    (testnet = false -> validateAddress (address wallet) = true).
Proof.
  intros H.
  destruct (generateWallet_inv fuel testnet w w' r H) as (k & Hk & Hr).
  destruct (generatePrivateKey_sound fuel w w' k Hk) as [Hv _].
  destruct (wallet_of_valid_key k testnet Hv) as (pk & a & _ & _ & Hw).
  rewrite Hw in Hr.
  exists (mkWallet (Hex.toString k) (Uint8Array_toString pk) a (network_name testnet)).
  split; [exact Hr|].
  destruct (wallet_shape k testnet _ Hv Hw) as (_ & Hn & H64 & H34 & Hval).
  split; [exact Hn|]. split; [exact H64|]. split; [exact H34|exact Hval].
Qed.

Lemma generateWallet_never_throws_witness :
  generateWallet 1 false (mkWorld (fun i => if (i =? 31)%nat then x01 else x00) 0) =
    Some (Ok (mkWallet
                "0000000000000000000000000000000000000000000000000000000000000001"
                "2,121,190,102,126,249,220,187,172,85,160,98,149,206,135,11,7,2,155,252,219,45,206,40,217,89,242,129,91,22,248,23,152"
                "bPQYFPE6iQFEfA3MJSRR3WYrczLjWVjiWG" "mainnet"),
          mkWorld (fun i => if (i =? 31)%nat then x01 else x00) 32) /\
  exists wallet,
    Ok (mkWallet
          "0000000000000000000000000000000000000000000000000000000000000001"
          "2,121,190,102,126,249,220,187,172,85,160,98,149,206,135,11,7,2,155,252,219,45,206,40,217,89,242,129,91,22,248,23,152"
          "bPQYFPE6iQFEfA3MJSRR3WYrczLjWVjiWG" "mainnet") = Ok wallet /\
    network wallet = "mainnet" /\
    String.length (privateKey wallet) = 64%nat /\
    String.length (address wallet) = 34%nat /\
    (false = false -> validateAddress (address wallet) = true).
Proof.
  assert (H : generateWallet 1 false
                (mkWorld (fun i => if (i =? 31)%nat then x01 else x00) 0) =
              Some (Ok (mkWallet
                "0000000000000000000000000000000000000000000000000000000000000001"
                "2,121,190,102,126,249,220,187,172,85,160,98,149,206,135,11,7,2,155,252,219,45,206,40,217,89,242,129,91,22,248,23,152"
                "bPQYFPE6iQFEfA3MJSRR3WYrczLjWVjiWG" "mainnet"),
                mkWorld (fun i => if (i =? 31)%nat then x01 else x00) 32))
    by (vm_compute; reflexivity).
  split; [exact H|].
  exact (generateWallet_never_throws 1 false _ _ _ H).
Defined.

(** X10.  A wallet that [fromPrivateKey] returns can be rebuilt from its own
    [privateKey] field: whatever the input was (a buffer, hex text in either
    case, hex text followed by other characters), calling [fromPrivateKey]
    on the field returns the same wallet; the field has 64 characters and
    the address 34. *)
Theorem fromPrivateKey_idempotent
    (input : KeyArgument) (testnet : bool) (wallet : Wallet) :
  fromPrivateKey input testnet = Ok wallet ->
  fromPrivateKey (KeyString (privateKey wallet)) testnet = Ok wallet /\
  String.length (privateKey wallet) = 64%nat /\
  String.length (address wallet) = 34%nat.
Proof.
  intros H. destruct (fromPrivateKey_Ok_inv input testnet wallet H) as [Hv Hw].
  set (k := match input with KeyString s => Hex.from s | KeyBuffer b => b end) in *.
  destruct (wallet_shape k testnet wallet Hv Hw) as (Hp & _ & H64 & H34 & _).
  split; [|split; [exact H64|exact H34]].
  rewrite (fromPrivateKey_valid (KeyString (privateKey wallet)) testnet k);
    [exact Hw| |exact Hv].
  rewrite Hp. now rewrite Hex_from_toString.
Qed.

Lemma fromPrivateKey_idempotent_witness :
  fromPrivateKey
    (KeyString "0000000000000000000000000000000000000000000000000000000000000001?")
    true =
  Ok (mkWallet "0000000000000000000000000000000000000000000000000000000000000001"
        "2,121,190,102,126,249,220,187,172,85,160,98,149,206,135,11,7,2,155,252,219,45,206,40,217,89,242,129,91,22,248,23,152"
        "mrCDrCybB6J1vRfbwM5hemdJz73FwDBC8r" "testnet") /\
  fromPrivateKey
    (KeyString "0000000000000000000000000000000000000000000000000000000000000001")
    true =
  Ok (mkWallet "0000000000000000000000000000000000000000000000000000000000000001"
        "2,121,190,102,126,249,220,187,172,85,160,98,149,206,135,11,7,2,155,252,219,45,206,40,217,89,242,129,91,22,248,23,152"
        "mrCDrCybB6J1vRfbwM5hemdJz73FwDBC8r" "testnet").
Proof.
  assert (H : fromPrivateKey
    (KeyString "0000000000000000000000000000000000000000000000000000000000000001?")
    true =
  Ok (mkWallet "0000000000000000000000000000000000000000000000000000000000000001"
        "2,121,190,102,126,249,220,187,172,85,160,98,149,206,135,11,7,2,155,252,219,45,206,40,217,89,242,129,91,22,248,23,152"
        "mrCDrCybB6J1vRfbwM5hemdJz73FwDBC8r" "testnet")) by (vm_compute; reflexivity).
  split; [exact H|].
  exact (proj1 (fromPrivateKey_idempotent _ true _ H)).
Defined.

(** X11.  Text after the key is ignored, a prefix is not: hex decoding stops
    without an error at the first pair that is not two hex digits, so the hex
    text of a key followed by such characters gives the same result as the
    key itself, while a key written with a leading [0x] decodes to no bytes
    and is refused as having the wrong length. *)
Theorem fromPrivateKey_text (k : bytes) (junk rest : string) (testnet : bool) :
  Hex.from junk = [] ->
  fromPrivateKey (KeyString (Hex.toString k ++ junk)) testnet =
  fromPrivateKey (KeyBuffer k) testnet /\
  fromPrivateKey (KeyString ("0x" ++ rest)) testnet =
  Throw (Error "Private key must be 32 bytes").
Proof.
  intros Hjunk. split; [|reflexivity].
  unfold fromPrivateKey. now rewrite Hex_from_toString_app, Hjunk, app_nil_r.
Qed.

Lemma fromPrivateKey_text_witness :
  Hex.from " (backup)" = [] /\
  fromPrivateKey (KeyString (Hex.toString (be_bytes 32 3) ++ " (backup)")) false =
  fromPrivateKey (KeyBuffer (be_bytes 32 3)) false /\
  fromPrivateKey (KeyString ("0x" ++ Hex.toString (be_bytes 32 3))) false =
  Throw (Error "Private key must be 32 bytes").
Proof.
  split; [reflexivity|].
  apply (fromPrivateKey_text (be_bytes 32 3) " (backup)"
           (Hex.toString (be_bytes 32 3)) false).
  reflexivity.
Defined.

(** X12.  On every buffer that is not empty [base58Encode] returns a text
    that is not empty; the empty buffer is the only input on which it
    throws. *)
Theorem base58Encode_total_nonempty (data : bytes) :
  (data <> [] -> exists s, base58Encode data = Ok s /\ s <> "") /\
  ((exists e, base58Encode data = Throw e) <-> data = []).
Proof.
  split.
  - intros Hne. destruct data as [|b rest]; [contradiction|].
    pose proof (base58Encode_nonempty b rest) as H.
    eexists. split; [exact H|].
    destruct (base58Encode_canonical (b :: rest) _ H) as (d & Hs & _ & _ & Hd).
    rewrite Hs. intros E.
    destruct (leading_zero_count (b :: rest)) as [|z] eqn:Hz; [|discriminate E].
    cbn [repeat_char String.append] in E.
    apply Hd in E. pose proof (leading_zeros_split (b :: rest)) as Hsplit.
    rewrite Hz, E in Hsplit. discriminate Hsplit.
  - split.
    + intros [e He]. destruct data as [|b rest]; [reflexivity|].
      rewrite base58Encode_nonempty in He. discriminate He.
    + intros ->. eexists. reflexivity.
Qed.

Lemma base58Encode_total_nonempty_witness :
  [x00] <> [] /\ exists s, base58Encode [x00] = Ok s /\ s <> "".
Proof.
  split; [discriminate|].
  apply (proj1 (base58Encode_total_nonempty [x00])). discriminate.
Defined.

(** ** Reading an address back *)

(** X13.  An address can be read back: the 25 big-endian bytes of its
    base-58 value are the version byte, the [hash160] of the public key and
    the four checksum bytes that [createAddress] put together, so the
    checksum that the encoder wrote can be verified from the text alone. *)
Theorem createAddress_decodable (pk : bytes) (testnet : bool) (a : string) :
  createAddress pk testnet = Ok a ->
  let version := if testnet then x6f else x55 in
  be_bytes 25 (base58_value a) =
    version :: hash160 pk ++ firstn 4 (doubleSha256 (version :: hash160 pk)) /\
  firstn 4 (doubleSha256 (firstn 21 (be_bytes 25 (base58_value a)))) =
    skipn 21 (be_bytes 25 (base58_value a)).
Proof.
  intros H version. pose proof H as Hv.
  rewrite createAddress_payload in Hv. fold version in Hv.
  apply base58_value_of_encoding in Hv.
  set (h := hash160 pk) in *.
  set (c := firstn 4 (doubleSha256 (version :: h))) in *.
  assert (Hh : List.length h = 20%nat) by apply hash160_length.
  assert (Hlen : List.length (version :: h ++ c) = 25%nat).
  { cbn [List.length]. unfold c, h. now rewrite payload_tail_length. }
  assert (E : be_bytes 25 (base58_value a) = version :: h ++ c).
  { rewrite Hv, <- Hlen. apply be_bytes_be_value. }
  split; [exact E|]. rewrite E.
  change (version :: h ++ c) with ((version :: h) ++ c).
  assert (H21 : List.length (version :: h) = 21%nat) by (cbn [List.length]; now rewrite Hh).
  pose proof (firstn_length_app (version :: h) c) as F.
  pose proof (skipn_length_app (version :: h) c) as S.
  rewrite H21 in F, S. rewrite F, S. reflexivity.
Qed.

Lemma createAddress_decodable_witness :
  createAddress [x02] true = Ok "mviZBGSXEhfY6CoPm5HDE1sxHx2uqbFPT8" /\
  be_bytes 25 (base58_value "mviZBGSXEhfY6CoPm5HDE1sxHx2uqbFPT8") =
    x6f :: hash160 [x02] ++ firstn 4 (doubleSha256 (x6f :: hash160 [x02])).
Proof.
  assert (H : createAddress [x02] true = Ok "mviZBGSXEhfY6CoPm5HDE1sxHx2uqbFPT8")
    by (vm_compute; reflexivity).
  split; [exact H|].
  exact (proj1 (createAddress_decodable [x02] true _ H)).
Defined.

(** X14.  [generateWallet] ends as soon as the random source delivers an
    acceptable block: with a bound above the index of the first such block
    it returns the wallet of that block, the same wallet as [fromPrivateKey]
    on its bytes, having consumed the source up to the end of the block. *)
Theorem generateWallet_first_valid (w : World) (j fuel : nat) (testnet : bool) :
  Secp256k1.privateKeyVerify (draw w j) = true ->
  (forall i, (i < j)%nat -> Secp256k1.privateKeyVerify (draw w i) = false) ->
  (j < fuel)%nat ->
  exists wallet,
    generateWallet fuel testnet w =
      Some (Ok wallet, mkWorld (entropy w) (consumed w + 32 * S j)) /\
    privateKey wallet = Hex.toString (draw w j) /\
    fromPrivateKey (KeyBuffer (draw w j)) testnet = Ok wallet.
Proof.
  intros Hv Hbefore Hfuel.
  pose proof (generatePrivateKey_first w j Hv Hbefore fuel Hfuel) as Hg.
  destruct (wallet_of_valid_key (draw w j) testnet Hv) as (pk & a & _ & _ & Hw).
  eexists. split; [|split].
  - rewrite (generateWallet_selected fuel testnet w _ _ Hg), Hw. reflexivity.
  - reflexivity.
  - now rewrite (fromPrivateKey_valid (KeyBuffer (draw w j)) testnet _ eq_refl Hv).
Qed.

Lemma generateWallet_first_valid_witness :
  Secp256k1.privateKeyVerify
    (draw (mkWorld (fun i => if (i =? 63)%nat then x01 else x00) 0) 1) = true /\
  (forall i, (i < 1)%nat ->
     Secp256k1.privateKeyVerify
       (draw (mkWorld (fun i => if (i =? 63)%nat then x01 else x00) 0) i) = false) /\
  (1 < 2)%nat /\
  exists wallet,
    generateWallet 2 true (mkWorld (fun i => if (i =? 63)%nat then x01 else x00) 0) =
      Some (Ok wallet, mkWorld (fun i => if (i =? 63)%nat then x01 else x00) (0 + 32 * 2)) /\
    privateKey wallet =
      Hex.toString (draw (mkWorld (fun i => if (i =? 63)%nat then x01 else x00) 0) 1) /\
    fromPrivateKey
      (KeyBuffer (draw (mkWorld (fun i => if (i =? 63)%nat then x01 else x00) 0) 1))
      true = Ok wallet.
Proof.
  assert (Hb : forall i, (i < 1)%nat ->
     Secp256k1.privateKeyVerify
       (draw (mkWorld (fun i => if (i =? 63)%nat then x01 else x00) 0) i) = false).
  { intros i Hi. assert (i = 0%nat) as -> by lia. vm_compute; reflexivity. }
  split; [vm_compute; reflexivity|]. split; [exact Hb|]. split; [lia|].
  apply (generateWallet_first_valid
           (mkWorld (fun i => if (i =? 63)%nat then x01 else x00) 0) 1 2 true).
  - vm_compute; reflexivity.
  - exact Hb.
  - lia.
Defined.

(** ** Upper-case hex *)

Lemma unhex_upper_digit (n : Z) :
  0 <= n < 16 -> Hex.unhex (ascii_toUpperCase (Hex.digit n)) = Some n.
Proof.
  intros H. rewrite <- (Z2Nat.id n) by lia.
  assert (Hm : (Z.to_nat n < 16)%nat) by lia.
  remember (Z.to_nat n) as m eqn:E. clear E H.
  do 16 (destruct m as [|m]; [reflexivity|]).
  lia.
Qed.

Lemma Hex_from_upper (data : bytes) :
  Hex.from (toUpperCase (Hex.toString data)) = data.
Proof.
  induction data as [|b rest IH]; [reflexivity|].
  destruct (byte_nibbles b) as (Hhi & Hlo & Hsum).
  cbn [Hex.toString toUpperCase Hex.from].
  rewrite (unhex_upper_digit _ Hhi), (unhex_upper_digit _ Hlo), Hsum,
    byte_of_Z_of_byte, IH.
  reflexivity.
Qed.

(** X15.  The case of the hex text does not matter and is not kept:
    [fromPrivateKey] on the upper-case hex text of a key returns what it
    returns on the key itself, and the [privateKey] field of the wallet is
    the lower-case text. *)
Theorem fromPrivateKey_upper_case (k : bytes) (testnet : bool) :
  fromPrivateKey (KeyString (toUpperCase (Hex.toString k))) testnet =
  fromPrivateKey (KeyBuffer k) testnet /\
  forall wallet,
    fromPrivateKey (KeyString (toUpperCase (Hex.toString k))) testnet = Ok wallet ->
    privateKey wallet = Hex.toString k.
Proof.
  assert (E : fromPrivateKey (KeyString (toUpperCase (Hex.toString k))) testnet =
              fromPrivateKey (KeyBuffer k) testnet).
  { unfold fromPrivateKey. now rewrite Hex_from_upper. }
  split; [exact E|].
  intros wallet H. rewrite E in H.
  destruct (fromPrivateKey_Ok_inv (KeyBuffer k) testnet wallet H) as [Hv Hw].
  now destruct (wallet_shape k testnet wallet Hv Hw) as (Hp & _).
Qed.
